(** * AteWell.Ai grocery list: the item enrichment orchestrator

    A shallow embedding of [src/components/GroceryList.tsx]: the item
    collection held in React state, the handlers that update it, the two
    enrichment dispatchers ([getHealthSuggestion], [getItemImage]) with
    their completion callbacks, and the inline suggestion parser.

    Every handler is a function from the component state to the next state
    and the list of effects it emits (network requests, alerts).  An
    [async] function is split at its [await]: the synchronous prefix is the
    dispatch, the continuation is a completion handler that takes the
    response as input. *)

From Stdlib Require Import Ascii String.
From Stdlib Require Import List Bool Arith ZArith NArith Lia.
From Stdlib Require Decimal DecimalString DecimalZ.
Import ListNotations.

(** ** JavaScript strings

    A JavaScript string is a sequence of UTF-16 code units. *)

Module JS.

Definition str := list N.

(** A literal of ASCII text as a JavaScript string. *)
Definition lit (s : string) : str :=
  List.map N_of_ascii (list_ascii_of_string s).

Definition nl : string := String (ascii_of_nat 10) EmptyString.

Definition LF : N := 10%N.
Definition SP : N := 32%N.

Fixpoint eqb (a b : str) : bool :=
  match a, b with
  | [], [] => true
  | x :: a', y :: b' => N.eqb x y && eqb a' b'
  | _, _ => false
  end.

(** [!s] is true for the empty string only. *)
Definition truthy (s : str) : bool :=
  match s with
  | [] => false
  | _ :: _ => true
  end.

(** The code units that [String.prototype.trim] strips: WhiteSpace and
    LineTerminator of ECMAScript. *)
Definition isWhiteSpace (c : N) : bool :=
  ((9 <=? c) && (c <=? 13) || (c =? 32) || (c =? 160) || (c =? 5760)
   || (8192 <=? c) && (c <=? 8202) || (c =? 8232) || (c =? 8233)
   || (c =? 8239) || (c =? 8287) || (c =? 12288) || (c =? 65279))%N.

Fixpoint trimStart (s : str) : str :=
  match s with
  | [] => []
  | c :: r => if isWhiteSpace c then trimStart r else s
  end.

Definition trimEnd (s : str) : str := rev (trimStart (rev s)).

Definition trim (s : str) : str := trimEnd (trimStart s).

(** [s.split("\n")]: never empty, [""] splits into [[""]]. *)
Fixpoint splitLF (s : str) : list str :=
  match s with
  | [] => [[]]
  | c :: r =>
      if N.eqb c LF then [] :: splitLF r
      else match splitLF r with
           | [] => [[c]]
           | l :: ls => (c :: l) :: ls
           end
  end.

(** [a.join(sep)] *)
Fixpoint join (sep : str) (a : list str) : str :=
  match a with
  | [] => []
  | [x] => x
  | x :: r => x ++ sep ++ join sep r
  end.

(** [n.toString()] for an integer [n]: its decimal digits, with a
    leading minus sign when negative. *)
Definition toString (n : Z) : str :=
  lit (DecimalString.NilEmpty.string_of_int (Z.to_int n)).

End JS.

Abbreviation str := JS.str.

(** The two values a JavaScript condition distinguishes in an optional
    string: [undefined], [null] and [""] are falsy. *)
Definition truthyStr (o : option str) : bool :=
  match o with
  | Some s => JS.truthy s
  | None => false
  end.

Definition truthyBool (o : option bool) : bool :=
  match o with
  | Some b => b
  | None => false
  end.

(** ** The suggestion parser (lines 216-221) *)

Definition isBlank (line : str) : bool := JS.eqb (JS.trim line) [].

(** [suggestion.split("\n").filter((line) => line.trim() !== "")] *)
Definition suggestionLines (suggestion : str) : list str :=
  filter (fun line => negb (isBlank line)) (JS.splitLF suggestion).

(** [lines[0]?.trim()] and
    [lines.length > 1 ? lines.slice(1).join(" ").trim() : ""] *)
Definition parseSuggestion (suggestion : str) : option str * str :=
  let lines := suggestionLines suggestion in
  (option_map JS.trim (nth_error lines 0),
   if 1 <? length lines then JS.trim (JS.join [JS.SP] (skipn 1 lines)) else []).

(** The parser as the specification words it: split on line breaks, drop
    the lines that are empty after trimming, the first line kept is the
    alternative, the other kept lines joined by one space are the reason. *)
Definition parseSuggestion_spec (suggestion : str) : option str * str :=
  let lines := suggestionLines suggestion in
  (hd_error lines, JS.join [JS.SP] (tl lines)).

(** The other reading of the same words: every line is trimmed before the
    empty ones are dropped. *)
Definition parseSuggestion_spec_trimmed (suggestion : str) : option str * str :=
  let lines := filter JS.truthy (List.map JS.trim (JS.splitLF suggestion)) in
  (hd_error lines, JS.join [JS.SP] (tl lines)).

(** ** The data model (lines 21-31, 38-43) *)

(** [GroceryItem].  An optional field ([?:]) is an [option]; [None] is
    [undefined]. *)
Record GroceryItem := mkItem {
  id : str;
  name : str;
  isEditing : bool;
  healthSuggestion : option str;
  suggestionReason : option str;
  showingSuggestion : option bool;
  isLoadingSuggestion : option bool;
  imageUrl : option str;
  isLoadingImage : option bool
}.

(** The component state the handlers read and write.  The two input
    fields of the key dialog are arguments of [saveApiKeys]; the zoomed
    image is presentation state that no handler below reads.

    [pendingDelete] is not a state variable of the component: it is the
    Delete callback of an open confirmation dialog, a closure over the id
    and over the [items] of the render that opened the dialog.
    [replaceFoodItem] reads [items] directly as well: its model takes the
    items of the render its button belongs to as an argument
    ([replaceFoodItem_from]), and an action of a run is a press on the
    render of the current state.  [startEditing] and [saveEdit] run from
    an event of the current render in the same way.

    [apiKeyError] is the error line of the key dialog. *)
Record AppState := mkState {
  items : list GroceryItem;
  inputText : str;
  editText : str;
  apiKey : option str;
  pexelsApiKey : option str;
  isApiKeyModalVisible : bool;
  pendingDelete : option (str * list GroceryItem);
  apiKeyError : option str
}.

Definition initialState : AppState :=
  {| items := []; inputText := []; editText := [];
     apiKey := None; pexelsApiKey := None; isApiKeyModalVisible := false;
     pendingDelete := None; apiKeyError := None |}.

(** What a handler asks of the outside world. *)
Inductive Effect :=
| FetchSuggestion (itemId itemName key : str)
| FetchImage (itemId itemName key : str)
| AlertSuggestionFailed
| AlertConfirmDelete (itemId : str)
| FocusInput
| KeyboardDismiss.

(** What comes back from [fetch]: the [catch] branch is taken on a status
    that is not ok, on a network failure and on a body that is not JSON;
    otherwise the handler reads one optional field of the body. *)
Inductive SuggestionResponse :=
| SuggestionFailed
| SuggestionOk (content : option str).

Inductive ImageResponse :=
| ImageFailed
| ImageOk (small : option str).

(** ** Handlers: state passing with an effect log *)

Definition Handler := AppState -> AppState * list Effect.

Definition ret : Handler := fun s => (s, []).

Definition emit (e : Effect) : Handler := fun s => (s, [e]).

Definition andThen (h k : Handler) : Handler := fun s =>
  let (s1, e1) := h s in
  let (s2, e2) := k s1 in
  (s2, e1 ++ e2).

Notation "h ;; k" := (andThen h k) (at level 61, right associativity).

Definition setItems (f : list GroceryItem -> list GroceryItem) : Handler := fun s =>
  ({| items := f (items s); inputText := inputText s; editText := editText s;
      apiKey := apiKey s; pexelsApiKey := pexelsApiKey s;
      isApiKeyModalVisible := isApiKeyModalVisible s;
      pendingDelete := pendingDelete s; apiKeyError := apiKeyError s |}, []).

Definition setInputText (t : str) : Handler := fun s =>
  ({| items := items s; inputText := t; editText := editText s;
      apiKey := apiKey s; pexelsApiKey := pexelsApiKey s;
      isApiKeyModalVisible := isApiKeyModalVisible s;
      pendingDelete := pendingDelete s; apiKeyError := apiKeyError s |}, []).

Definition setEditText (t : str) : Handler := fun s =>
  ({| items := items s; inputText := inputText s; editText := t;
      apiKey := apiKey s; pexelsApiKey := pexelsApiKey s;
      isApiKeyModalVisible := isApiKeyModalVisible s;
      pendingDelete := pendingDelete s; apiKeyError := apiKeyError s |}, []).

Definition setApiKey (k : str) : Handler := fun s =>
  ({| items := items s; inputText := inputText s; editText := editText s;
      apiKey := Some k; pexelsApiKey := pexelsApiKey s;
      isApiKeyModalVisible := isApiKeyModalVisible s;
      pendingDelete := pendingDelete s; apiKeyError := apiKeyError s |}, []).

Definition setPexelsApiKey (k : str) : Handler := fun s =>
  ({| items := items s; inputText := inputText s; editText := editText s;
      apiKey := apiKey s; pexelsApiKey := Some k;
      isApiKeyModalVisible := isApiKeyModalVisible s;
      pendingDelete := pendingDelete s; apiKeyError := apiKeyError s |}, []).

Definition setIsApiKeyModalVisible (b : bool) : Handler := fun s =>
  ({| items := items s; inputText := inputText s; editText := editText s;
      apiKey := apiKey s; pexelsApiKey := pexelsApiKey s;
      isApiKeyModalVisible := b;
      pendingDelete := pendingDelete s; apiKeyError := apiKeyError s |}, []).

Definition setPendingDelete (d : option (str * list GroceryItem)) : Handler := fun s =>
  ({| items := items s; inputText := inputText s; editText := editText s;
      apiKey := apiKey s; pexelsApiKey := pexelsApiKey s;
      isApiKeyModalVisible := isApiKeyModalVisible s;
      pendingDelete := d; apiKeyError := apiKeyError s |}, []).

Definition setApiKeyError (e : option str) : Handler := fun s =>
  ({| items := items s; inputText := inputText s; editText := editText s;
      apiKey := apiKey s; pexelsApiKey := pexelsApiKey s;
      isApiKeyModalVisible := isApiKeyModalVisible s;
      pendingDelete := pendingDelete s; apiKeyError := e |}, []).

(** ** Item updates: one definition per object literal of the source *)

(** [{ ...item, isLoadingImage: true }] *)
Definition markLoadingImage (item : GroceryItem) : GroceryItem :=
  {| id := id item; name := name item; isEditing := isEditing item;
     healthSuggestion := healthSuggestion item;
     suggestionReason := suggestionReason item;
     showingSuggestion := showingSuggestion item;
     isLoadingSuggestion := isLoadingSuggestion item;
     imageUrl := imageUrl item; isLoadingImage := Some true |}.

(** [{ ...item, imageUrl, isLoadingImage: false }] *)
Definition imageLoaded (url : str) (item : GroceryItem) : GroceryItem :=
  {| id := id item; name := name item; isEditing := isEditing item;
     healthSuggestion := healthSuggestion item;
     suggestionReason := suggestionReason item;
     showingSuggestion := showingSuggestion item;
     isLoadingSuggestion := isLoadingSuggestion item;
     imageUrl := Some url; isLoadingImage := Some false |}.

(** [{ ...item, isLoadingImage: false }] *)
Definition imageNotLoaded (item : GroceryItem) : GroceryItem :=
  {| id := id item; name := name item; isEditing := isEditing item;
     healthSuggestion := healthSuggestion item;
     suggestionReason := suggestionReason item;
     showingSuggestion := showingSuggestion item;
     isLoadingSuggestion := isLoadingSuggestion item;
     imageUrl := imageUrl item; isLoadingImage := Some false |}.

(** [{ ...item, isLoadingSuggestion: true }] *)
Definition markLoadingSuggestion (item : GroceryItem) : GroceryItem :=
  {| id := id item; name := name item; isEditing := isEditing item;
     healthSuggestion := healthSuggestion item;
     suggestionReason := suggestionReason item;
     showingSuggestion := showingSuggestion item;
     isLoadingSuggestion := Some true;
     imageUrl := imageUrl item; isLoadingImage := isLoadingImage item |}.

(** [{ ...item, healthSuggestion, suggestionReason, showingSuggestion: true,
       isLoadingSuggestion: false }] *)
Definition suggestionLoaded (hs : option str) (sr : str) (item : GroceryItem)
  : GroceryItem :=
  {| id := id item; name := name item; isEditing := isEditing item;
     healthSuggestion := hs;
     suggestionReason := Some sr;
     showingSuggestion := Some true;
     isLoadingSuggestion := Some false;
     imageUrl := imageUrl item; isLoadingImage := isLoadingImage item |}.

(** [{ ...item, isLoadingSuggestion: false }] *)
Definition suggestionNotLoaded (item : GroceryItem) : GroceryItem :=
  {| id := id item; name := name item; isEditing := isEditing item;
     healthSuggestion := healthSuggestion item;
     suggestionReason := suggestionReason item;
     showingSuggestion := showingSuggestion item;
     isLoadingSuggestion := Some false;
     imageUrl := imageUrl item; isLoadingImage := isLoadingImage item |}.

(** [{ ...i, name: newName, healthSuggestion: undefined,
       suggestionReason: undefined, showingSuggestion: false,
       imageUrl: undefined }] *)
Definition replaced (newName : str) (i : GroceryItem) : GroceryItem :=
  {| id := id i; name := newName; isEditing := isEditing i;
     healthSuggestion := None;
     suggestionReason := None;
     showingSuggestion := Some false;
     isLoadingSuggestion := isLoadingSuggestion i;
     imageUrl := None; isLoadingImage := isLoadingImage i |}.

(** [{ ...item, showingSuggestion: false }] *)
Definition dismissed (item : GroceryItem) : GroceryItem :=
  {| id := id item; name := name item; isEditing := isEditing item;
     healthSuggestion := healthSuggestion item;
     suggestionReason := suggestionReason item;
     showingSuggestion := Some false;
     isLoadingSuggestion := isLoadingSuggestion item;
     imageUrl := imageUrl item; isLoadingImage := isLoadingImage item |}.

(** [{ ...item, isEditing: b }] *)
Definition withEditing (b : bool) (item : GroceryItem) : GroceryItem :=
  {| id := id item; name := name item; isEditing := b;
     healthSuggestion := healthSuggestion item;
     suggestionReason := suggestionReason item;
     showingSuggestion := showingSuggestion item;
     isLoadingSuggestion := isLoadingSuggestion item;
     imageUrl := imageUrl item; isLoadingImage := isLoadingImage item |}.

(** [{ ...item, name: newName, isEditing: false }] *)
Definition renamed (newName : str) (item : GroceryItem) : GroceryItem :=
  {| id := id item; name := newName; isEditing := false;
     healthSuggestion := healthSuggestion item;
     suggestionReason := suggestionReason item;
     showingSuggestion := showingSuggestion item;
     isLoadingSuggestion := isLoadingSuggestion item;
     imageUrl := imageUrl item; isLoadingImage := isLoadingImage item |}.

(** [{ id: newItemId, name: newItemName, isEditing: false }] *)
Definition newItem (newItemId newItemName : str) : GroceryItem :=
  {| id := newItemId; name := newItemName; isEditing := false;
     healthSuggestion := None; suggestionReason := None;
     showingSuggestion := None; isLoadingSuggestion := None;
     imageUrl := None; isLoadingImage := None |}.

(** [prevItems.map((item) => item.id === itemId ? f(item) : item)], the
    shape of every enrichment update. *)
Definition patch (itemId : str) (f : GroceryItem -> GroceryItem)
  (prevItems : list GroceryItem) : list GroceryItem :=
  List.map (fun item => if JS.eqb (id item) itemId then f item else item) prevItems.

(** A key counts as configured when the state holds a non-empty string:
    the guards are [!apiKey] and [!pexelsApiKey]. *)
Definition configured (k : option str) : option str :=
  match k with
  | Some key => if JS.truthy key then Some key else None
  | None => None
  end.

(** ** Image enrichment (lines 110-162) *)

(** [getItemImage] up to its [await fetch(...)].  The request searches for
    [itemName + " food"] with [per_page=1]. *)
Definition getItemImage (itemId itemName : str) : Handler := fun s =>
  match configured (pexelsApiKey s) with
  | None => ret s
  | Some key =>
      (setItems (patch itemId markLoadingImage) ;;
       emit (FetchImage itemId itemName key)) s
  end.

(** The update an image response produces on one item:
    [data.photos?.[0]?.src?.small] when it is truthy, otherwise and in the
    [catch] branch only the loading flag. *)
Definition imageUpdate (r : ImageResponse) : GroceryItem -> GroceryItem :=
  match r with
  | ImageOk (Some url) => if JS.truthy url then imageLoaded url else imageNotLoaded
  | ImageOk None => imageNotLoaded
  | ImageFailed => imageNotLoaded
  end.

(** [getItemImage] from the response on. *)
Definition getItemImage_completed (itemId : str) (r : ImageResponse) : Handler :=
  setItems (patch itemId (imageUpdate r)).

(** ** Suggestion enrichment (lines 165-252) *)

Definition getHealthSuggestion (itemId itemName : str) : Handler := fun s =>
  match configured (apiKey s) with
  | None => setIsApiKeyModalVisible true s
  | Some key =>
      (setItems (patch itemId markLoadingSuggestion) ;;
       emit (FetchSuggestion itemId itemName key)) s
  end.

(** [getHealthSuggestion] from the response on.  A successful response
    whose [choices?.[0]?.message?.content] is falsy runs no statement at
    all: the [if (suggestion)] has no [else]. *)
Definition getHealthSuggestion_completed (itemId : str) (r : SuggestionResponse)
  : Handler :=
  match r with
  | SuggestionFailed =>
      emit AlertSuggestionFailed ;; setItems (patch itemId suggestionNotLoaded)
  | SuggestionOk content =>
      match content with
      | Some suggestion =>
          if JS.truthy suggestion then
            let (hs, sr) := parseSuggestion suggestion in
            setItems (patch itemId (suggestionLoaded hs sr))
          else ret
      | None => ret
      end
  end.

(** ** Accepting and dismissing a suggestion (lines 255-291) *)

(** [replaceFoodItem] as a closure of one render: [items.find] (line 256)
    reads the [items] of the render the button belongs to, the update maps
    over the current collection. *)
Definition replaceFoodItem_from (renderedItems : list GroceryItem) (itemId : str)
  : Handler := fun s =>
  match find (fun i => JS.eqb (id i) itemId) renderedItems with
  | Some item =>
      match healthSuggestion item with
      | Some newName =>
          if JS.truthy newName then
            (setItems (List.map (fun i =>
               if JS.eqb (id i) itemId && truthyStr (healthSuggestion i)
               then replaced newName i else i)) ;;
             getItemImage itemId newName) s
          else ret s
      | None => ret s
      end
  | None => ret s
  end.

(** [replaceFoodItem] called from the render of the current state. *)
Definition replaceFoodItem (itemId : str) : Handler := fun s =>
  replaceFoodItem_from (items s) itemId s.

Definition dismissSuggestion (itemId : str) : Handler :=
  setItems (patch itemId dismissed).

(** ** Adding, deleting and editing (lines 293-360) *)

(** [addItem]; [now] is the value [Date.now()] returns during the call,
    an input of the handler like the response of a fetch. *)
Definition addItem (now : Z) : Handler := fun s =>
  if JS.eqb (JS.trim (inputText s)) [] then ret s
  else
    let newItemId := JS.toString now in
    let newItemName := JS.trim (inputText s) in
    (setItems (fun prevItems => prevItems ++ [newItem newItemId newItemName]) ;;
     setInputText [] ;;
     emit FocusInput ;;
     getHealthSuggestion newItemId newItemName ;;
     getItemImage newItemId newItemName) s.


(** [deleteItem] only opens the confirmation dialog; its Delete button
    closes over [id] and over the [items] of this render. *)
Definition deleteItem (itemId : str) : Handler := fun s =>
  (setPendingDelete (Some (itemId, items s)) ;;
   emit (AlertConfirmDelete itemId)) s.

(** The dialog's Delete button: [setItems(items.filter(...))] with the
    [items] the dialog was opened with, not an update of the current
    collection. *)
Definition deleteItem_onPress (capturedItems : list GroceryItem) (itemId : str)
  : Handler :=
  setItems (fun _ =>
    filter (fun item => negb (JS.eqb (id item) itemId)) capturedItems).

(** Pressing a button of the open dialog. *)
Definition confirmDelete : Handler := fun s =>
  match pendingDelete s with
  | Some (itemId, capturedItems) =>
      (deleteItem_onPress capturedItems itemId ;; setPendingDelete None) s
  | None => ret s
  end.

Definition cancelDelete : Handler := setPendingDelete None.

(** [startEditing]: [setEditText(item.name)] runs for every matching item
    while the array is mapped, so the last match decides [editText]. *)
Definition startEditing (itemId : str) : Handler := fun s =>
  let updatedItems :=
    List.map (fun item =>
      if JS.eqb (id item) itemId then withEditing true item
      else withEditing false item) (items s) in
  let text :=
    fold_left (fun t item => if JS.eqb (id item) itemId then name item else t)
      (items s) (editText s) in
  (setEditText text ;; setItems (fun _ => updatedItems)) s.

Definition saveEdit (itemId : str) : Handler := fun s =>
  if JS.eqb (JS.trim (editText s)) [] then ret s
  else
    (setItems (patch itemId (renamed (JS.trim (editText s)))) ;;
     setEditText [] ;;
     emit KeyboardDismiss) s.

(** ** The keys (lines 55-107)

    [getApiKeys] after both reads from storage, and its [catch] branch
    when a read fails.  [saveApiKeys] with the two fields of the dialog;
    [healthStored] and [pexelsStored] tell whether the write of each key
    to storage succeeds (each is read only when that key is written), and
    a write that fails leads to the [catch] branch. *)
Definition getApiKeys_loaded (storedApiKey storedPexelsKey : option str) : Handler :=
  (match configured storedApiKey with
   | Some k => setApiKey k
   | None => ret
   end) ;;
  (match configured storedPexelsKey with
   | Some k => setPexelsApiKey k
   | None => ret
   end) ;;
  (if negb (truthyStr storedApiKey) || negb (truthyStr storedPexelsKey)
   then setIsApiKeyModalVisible true else ret).

Definition getApiKeys_failed : Handler :=
  setApiKeyError (Some (JS.lit "Failed to retrieve API keys")) ;;
  setIsApiKeyModalVisible true.

Definition saveApiKeys (apiKeyInput pexelsApiKeyInput : str)
  (healthStored pexelsStored : bool) : Handler :=
  if JS.eqb (JS.trim apiKeyInput) [] && JS.eqb (JS.trim pexelsApiKeyInput) []
  then setApiKeyError (Some (JS.lit "Please enter at least one API key"))
  else
    let failed := setApiKeyError (Some (JS.lit "Failed to save API keys")) in
    let finish := setApiKeyError None ;; setIsApiKeyModalVisible false in
    let second :=
      if negb (JS.eqb (JS.trim pexelsApiKeyInput) []) then
        if pexelsStored then setPexelsApiKey pexelsApiKeyInput ;; finish
        else failed
      else finish in
    if negb (JS.eqb (JS.trim apiKeyInput) []) then
      if healthStored then setApiKey apiKeyInput ;; second
      else failed
    else second.

(** The settings button (lines 503-509). *)
Definition openSettings : Handler :=
  setApiKeyError None ;; setIsApiKeyModalVisible true.

(** ** Runs of the component *)

(** [SaveApiKeys] is a save whose writes to storage succeed;
    [SaveApiKeysStorage] is a save with the outcome of each write. *)
Inductive Action :=
| OnChangeInputText (t : str)
| OnChangeEditText (t : str)
| AddItem (now : Z)
| DeleteItem (itemId : str)
| ConfirmDelete
| CancelDelete
| StartEditing (itemId : str)
| SaveEdit (itemId : str)
| ReplaceFoodItem (itemId : str)
| DismissSuggestion (itemId : str)
| SuggestionCompleted (itemId : str) (r : SuggestionResponse)
| ImageCompleted (itemId : str) (r : ImageResponse)
| ApiKeysLoaded (storedApiKey storedPexelsKey : option str)
| SaveApiKeys (apiKeyInput pexelsApiKeyInput : str)
| OpenSettings
| SaveApiKeysStorage (apiKeyInput pexelsApiKeyInput : str)
    (healthStored pexelsStored : bool)
| ApiKeysUnreadable.

Definition step (a : Action) : Handler :=
  match a with
  | OnChangeInputText t => setInputText t
  | OnChangeEditText t => setEditText t
  | AddItem now => addItem now
  | DeleteItem itemId => deleteItem itemId
  | ConfirmDelete => confirmDelete
  | CancelDelete => cancelDelete
  | StartEditing itemId => startEditing itemId
  | SaveEdit itemId => saveEdit itemId
  | ReplaceFoodItem itemId => replaceFoodItem itemId
  | DismissSuggestion itemId => dismissSuggestion itemId
  | SuggestionCompleted itemId r => getHealthSuggestion_completed itemId r
  | ImageCompleted itemId r => getItemImage_completed itemId r
  | ApiKeysLoaded k1 k2 => getApiKeys_loaded k1 k2
  | SaveApiKeys k1 k2 => saveApiKeys k1 k2 true true
  | OpenSettings => openSettings
  | SaveApiKeysStorage k1 k2 ok1 ok2 => saveApiKeys k1 k2 ok1 ok2
  | ApiKeysUnreadable => getApiKeys_failed
  end.

(** The state after a sequence of actions, oldest first. *)
Definition run (acts : list Action) (s : AppState) : AppState :=
  fold_left (fun s a => fst (step a s)) acts s.

(** The states the component can be in.  Completions are accepted for any
    id at any time, and user actions also while a dialog is open, which
    can only add states: every invariant below holds of this larger set. *)
Definition reachable (s : AppState) : Prop :=
  exists acts, run acts initialState = s.

(** ** Observations used by the statements *)

(** The fields owned by the suggestion fetch and by the image fetch. *)
Definition suggestionAxis (item : GroceryItem) :=
  (healthSuggestion item, suggestionReason item,
   showingSuggestion item, isLoadingSuggestion item).

Definition imageAxis (item : GroceryItem) :=
  (imageUrl item, isLoadingImage item).

(** Everything but the image axis, and everything but the suggestion axis. *)
Definition offImageAxis (item : GroceryItem) :=
  (id item, name item, isEditing item, suggestionAxis item).

Definition offSuggestionAxis (item : GroceryItem) :=
  (id item, name item, isEditing item, imageAxis item).

Definition ids (s : AppState) : list str := List.map id (items s).


Definition isFetch (e : Effect) : bool :=
  match e with FetchImage _ _ _ | FetchSuggestion _ _ _ => true | _ => false end.

(** The item update behind a suggestion response; [None] when the
    response runs no update. *)
Definition suggestionUpdate (r : SuggestionResponse)
  : option (GroceryItem -> GroceryItem) :=
  match r with
  | SuggestionFailed => Some suggestionNotLoaded
  | SuggestionOk (Some suggestion) =>
      if JS.truthy suggestion then
        Some (suggestionLoaded (fst (parseSuggestion suggestion))
                               (snd (parseSuggestion suggestion)))
      else None
  | SuggestionOk None => None
  end.

(** ** Sample runs

    Both keys are stored, one item is typed and added at clock reading
    1000: its id is ["1000"] and both fetches are in flight. *)
Definition keysStored : list Action :=
  [ApiKeysLoaded (Some (JS.lit "sk-or")) (Some (JS.lit "px"))].

Definition addPeanutButter : list Action :=
  [OnChangeInputText (JS.lit "Peanut butter"); AddItem 1000].

Definition peanutButterPending : AppState :=
  run (keysStored ++ addPeanutButter) initialState.

(** The same item with no key stored at all. *)
Definition peanutButterNoKeys : AppState :=
  run addPeanutButter initialState.

(** The first code unit is not white space. *)
Definition inked (s : str) : Prop :=
  match s with
  | c :: _ => JS.isWhiteSpace c = false
  | [] => False
  end.

(** No white space at either end. *)
Definition tight (s : str) : Prop := inked s /\ inked (rev s).

(** ** Properties of a collection *)

(** The [items] an open confirmation dialog closes over. *)
Definition snapshot (s : AppState) : list GroceryItem :=
  match pendingDelete s with
  | Some (_, capturedItems) => capturedItems
  | None => []
  end.

Definition snapshotIds (s : AppState) : list str := List.map id (snapshot s).

(** [P] holds of every item of the collection and of every item an open
    dialog closes over. *)
Definition everyItem (P : GroceryItem -> Prop) (s : AppState) : Prop :=
  Forall P (items s) /\ Forall P (snapshot s).




Definition editingCount (s : AppState) : nat :=
  length (filter isEditing (items s)).

(** Every item being edited carries the id [eid]. *)
Definition editingOnly (eid : str) (item : GroceryItem) : Prop :=
  isEditing item = true -> id item = eid.

(** Everything of an item but [isEditing]. *)
Definition offEditing (item : GroceryItem) :=
  (id item, name item, suggestionAxis item, imageAxis item).

(** The clock readings of the [addItem] calls of a run, oldest first. *)
Fixpoint clockReadings (acts : list Action) : list Z :=
  match acts with
  | [] => []
  | AddItem now :: rest => now :: clockReadings rest
  | _ :: rest => clockReadings rest
  end.

(** ** More sample runs *)

(** The suggestion for the pending item arrives, with both keys stored and
    with the suggestion key only. *)
Definition almondButterText : str :=
  JS.lit ("Almond butter" ++ JS.nl ++ "It has less sugar.").

Definition almondButterShown : AppState :=
  run (keysStored ++ addPeanutButter ++
       [SuggestionCompleted (JS.lit "1000") (SuggestionOk (Some almondButterText))])
      initialState.





(** Two items added at the same clock reading ([Date.now()] is the wall
    clock in milliseconds: it can stand still between two calls and it can
    be set back), then the first is edited. *)
Definition twoAddsOneReading : list Action :=
  [OnChangeInputText (JS.lit "Milk"); AddItem 1000;
   OnChangeInputText (JS.lit "Eggs"); AddItem 1000].

Definition twinsEdited : AppState :=
  run (twoAddsOneReading ++ [StartEditing (JS.lit "1000")]) initialState.

(** ** Statements of the specification that the code does not meet, as
    they are written *)




(** C6 as written: at most one item is being edited. *)
Definition singleEditing_as_claimed : Prop :=
  forall s, reachable s -> editingCount s <= 1.


(** A name, or a stored suggestion, that is not empty and has no white
    space at either end. *)
Definition textsAreTight (item : GroceryItem) : Prop :=
  tight (name item) /\
  (forall h, healthSuggestion item = Some h -> tight h).

(** Neither loading flag of the item is set. *)
Definition notLoadingSuggestion (item : GroceryItem) : Prop :=
  truthyBool (isLoadingSuggestion item) = false.

Definition notLoadingImage (item : GroceryItem) : Prop :=
  truthyBool (isLoadingImage item) = false.

(** ** More observations *)

(** Everything of an item but one field, or but its name and [isEditing]. *)
Definition offShowing (item : GroceryItem) :=
  (id item, name item, isEditing item, healthSuggestion item,
   suggestionReason item, isLoadingSuggestion item, imageAxis item).

Definition offLoadingSuggestion (item : GroceryItem) :=
  (id item, name item, isEditing item, healthSuggestion item,
   suggestionReason item, showingSuggestion item, imageAxis item).

Definition offLoadingImage (item : GroceryItem) :=
  (id item, name item, isEditing item, suggestionAxis item, imageUrl item).

Definition offNameEditing (item : GroceryItem) :=
  (id item, suggestionAxis item, imageAxis item).

(** The action is none of the three that open or close the delete
    dialog. *)
Definition besideDialog (a : Action) : bool :=
  match a with
  | DeleteItem _ | ConfirmDelete | CancelDelete => false
  | _ => true
  end.

(** ** The row of an item (lines 362-476)

    [renderItem] without its styles: what a row shows and which handler
    each of its buttons calls. *)






(** ** The component before pictures (src/unnamed/part_000)

    The same component with one key and no image fields.  Its
    [getHealthSuggestion], [dismissSuggestion], [deleteItem],
    [startEditing] and [saveEdit] are those above, letter for letter; the
    handlers that differ are modelled here. *)

Module Legacy.

(** [{ ...item, name: item.healthSuggestion, healthSuggestion: undefined,
       suggestionReason: undefined, showingSuggestion: false }] *)
Definition replaced (item : GroceryItem) : GroceryItem :=
  {| id := id item;
     name := match healthSuggestion item with Some h => h | None => [] end;
     isEditing := isEditing item;
     healthSuggestion := None;
     suggestionReason := None;
     showingSuggestion := Some false;
     isLoadingSuggestion := isLoadingSuggestion item;
     imageUrl := imageUrl item; isLoadingImage := isLoadingImage item |}.

(** [replaceFoodItem] (lines 165-178): every matching item takes its own
    suggestion, in one update of the current collection. *)
Definition replaceFoodItem (itemId : str) : Handler :=
  setItems (List.map (fun item =>
    if JS.eqb (id item) itemId && truthyStr (healthSuggestion item)
    then replaced item else item)).

(** [addItem] (lines 192-215). *)
Definition addItem (now : Z) : Handler := fun s =>
  if JS.eqb (JS.trim (inputText s)) [] then ret s
  else
    let newItemId := JS.toString now in
    let newItemName := JS.trim (inputText s) in
    (setItems (fun prevItems => prevItems ++ [newItem newItemId newItemName]) ;;
     setInputText [] ;;
     emit FocusInput ;;
     getHealthSuggestion newItemId newItemName) s.

(** [getApiKey] after the read from storage (lines 48-66), and
    [saveApiKey] (lines 69-85); [stored] tells whether the write to
    storage succeeds. *)
Definition getApiKey_loaded (storedApiKey : option str) : Handler :=
  match configured storedApiKey with
  | Some k => setApiKey k
  | None => setIsApiKeyModalVisible true
  end.

(** The [catch] of [getApiKey] (lines 60-64). *)
Definition getApiKey_failed : Handler :=
  setApiKeyError (Some (JS.lit "Failed to retrieve API key")) ;;
  setIsApiKeyModalVisible true.

Definition saveApiKey (apiKeyInput : str) (stored : bool) : Handler :=
  if JS.eqb (JS.trim apiKeyInput) []
  then setApiKeyError (Some (JS.lit "Please enter a valid API key"))
  else if stored then
    setApiKey apiKeyInput ;; setApiKeyError None ;; setIsApiKeyModalVisible false
  else setApiKeyError (Some (JS.lit "Failed to save API key")).

End Legacy.

(** * Basic facts *)

Lemma JS_eqb_eq (a b : str) : JS.eqb a b = true <-> a = b.
Proof.
  revert b; induction a as [|x a IH]; intros [|y b]; simpl; split;
    try congruence; try reflexivity.
  - intros H. apply andb_true_iff in H as [Hx Hr].
    apply N.eqb_eq in Hx. apply IH in Hr. congruence.
  - intros H. injection H as -> ->. rewrite N.eqb_refl. simpl. now apply IH.
Qed.

Lemma JS_eqb_refl (a : str) : JS.eqb a a = true.
Proof. now apply JS_eqb_eq. Qed.

Lemma JS_eqb_neq (a b : str) : JS.eqb a b = false <-> a <> b.
Proof.
  split.
  - intros H E. apply JS_eqb_eq in E. congruence.
  - intros H. destruct (JS.eqb a b) eqn:E; [|reflexivity].
    apply JS_eqb_eq in E. contradiction.
Qed.

Lemma state_eta (s : AppState) :
  {| items := items s; inputText := inputText s; editText := editText s;
     apiKey := apiKey s; pexelsApiKey := pexelsApiKey s;
     isApiKeyModalVisible := isApiKeyModalVisible s;
     pendingDelete := pendingDelete s; apiKeyError := apiKeyError s |} = s.
Proof. now destruct s. Qed.

(** A patch addressed to an id that no item carries changes nothing. *)
Lemma patch_absent itemId f l :
  ~ In itemId (List.map id l) -> patch itemId f l = l.
Proof.
  induction l as [|item l IH]; simpl; intros H; [reflexivity|].
  destruct (JS.eqb (id item) itemId) eqn:E.
  - apply JS_eqb_eq in E. exfalso. apply H. now left.
  - f_equal. apply IH. intros HI. apply H. now right.
Qed.


(** A patch leaves an observation alone when its update does. *)
Lemma patch_frame {A} (obs : GroceryItem -> A) itemId f l :
  (forall item, obs (f item) = obs item) ->
  List.map obs (patch itemId f l) = List.map obs l.
Proof.
  intros Hf. unfold patch. rewrite map_map. apply map_ext.
  intros item. destruct (JS.eqb (id item) itemId); auto.
Qed.

Lemma patch_patch itemId f g l :
  (forall item, id (g item) = id item) ->
  patch itemId f (patch itemId g l) = patch itemId (fun item => f (g item)) l.
Proof.
  intros Hg. unfold patch. rewrite map_map. apply map_ext.
  intros item. destruct (JS.eqb (id item) itemId) eqn:E.
  - rewrite Hg, E. reflexivity.
  - rewrite E. reflexivity.
Qed.

Lemma patch_ext itemId f g l :
  (forall item, f item = g item) -> patch itemId f l = patch itemId g l.
Proof.
  intros H. unfold patch. apply map_ext. intros item.
  destruct (JS.eqb (id item) itemId); auto.
Qed.

Lemma imageUpdate_off r item : offImageAxis (imageUpdate r item) = offImageAxis item.
Proof.
  destruct r as [|[url|]]; simpl; try reflexivity.
  destruct (JS.truthy url); reflexivity.
Qed.

Lemma imageUpdate_id r item : id (imageUpdate r item) = id item.
Proof.
  destruct r as [|[url|]]; simpl; try reflexivity.
  destruct (JS.truthy url); reflexivity.
Qed.

Lemma suggestion_completed_items itemId r s :
  items (fst (getHealthSuggestion_completed itemId r s)) =
  match suggestionUpdate r with
  | Some f => patch itemId f (items s)
  | None => items s
  end.
Proof.
  destruct r as [|[suggestion|]]; simpl; try reflexivity.
  destruct (JS.truthy suggestion); [|reflexivity].
  destruct (parseSuggestion suggestion); reflexivity.
Qed.

Lemma suggestion_completed_rest itemId r s :
  let s' := fst (getHealthSuggestion_completed itemId r s) in
  inputText s' = inputText s /\ editText s' = editText s /\
  apiKey s' = apiKey s /\ pexelsApiKey s' = pexelsApiKey s /\
  isApiKeyModalVisible s' = isApiKeyModalVisible s /\
  pendingDelete s' = pendingDelete s /\
  apiKeyError s' = apiKeyError s.
Proof.
  destruct r as [|[suggestion|]]; simpl; auto 8.
  destruct (JS.truthy suggestion); simpl; auto 8.
Qed.

Lemma state_ext (s t : AppState) :
  items s = items t -> inputText s = inputText t -> editText s = editText t ->
  apiKey s = apiKey t -> pexelsApiKey s = pexelsApiKey t ->
  isApiKeyModalVisible s = isApiKeyModalVisible t ->
  pendingDelete s = pendingDelete t ->
  apiKeyError s = apiKeyError t -> s = t.
Proof. destruct s, t; simpl; intros; subst; reflexivity. Qed.

Lemma suggestionUpdate_off r f item :
  suggestionUpdate r = Some f -> offSuggestionAxis (f item) = offSuggestionAxis item.
Proof.
  destruct r as [|[suggestion|]]; simpl; try discriminate.
  - intros [= <-]. reflexivity.
  - destruct (JS.truthy suggestion); [|discriminate]. intros [= <-]. reflexivity.
Qed.

Lemma suggestionUpdate_id r f item :
  suggestionUpdate r = Some f -> id (f item) = id item.
Proof.
  intros H. pose proof (suggestionUpdate_off r f item H) as E.
  unfold offSuggestionAxis in E. congruence.
Qed.

(** * The two completion patches *)

Lemma image_completed_items itemId r s :
  items (fst (getItemImage_completed itemId r s)) = patch itemId (imageUpdate r) (items s).
Proof. reflexivity. Qed.

Lemma updates_commute ri rs f item :
  suggestionUpdate rs = Some f ->
  f (imageUpdate ri item) = imageUpdate ri (f item).
Proof.
  intros Hf.
  assert (Hi : imageUpdate ri = imageNotLoaded \/
               exists url, imageUpdate ri = imageLoaded url).
  { destruct ri as [|[url|]]; simpl; auto.
    destruct (JS.truthy url); eauto. }
  destruct rs as [|[suggestion|]]; simpl in Hf; try discriminate.
  - injection Hf as <-. destruct Hi as [-> | [url ->]]; reflexivity.
  - destruct (JS.truthy suggestion); [|discriminate].
    injection Hf as <-. destruct Hi as [-> | [url ->]]; reflexivity.
Qed.

Lemma completions_commute itemId ri rs s :
  fst (getHealthSuggestion_completed itemId rs (fst (getItemImage_completed itemId ri s)))
  = fst (getItemImage_completed itemId ri (fst (getHealthSuggestion_completed itemId rs s))).
Proof.
  pose proof (suggestion_completed_rest itemId rs s)
    as (R1 & R2 & R3 & R4 & R5 & R6 & R7).
  pose proof (suggestion_completed_rest itemId rs
                (fst (getItemImage_completed itemId ri s)))
    as (Q1 & Q2 & Q3 & Q4 & Q5 & Q6 & Q7).
  apply state_ext;
    [ | rewrite Q1 | rewrite Q2 | rewrite Q3 | rewrite Q4 | rewrite Q5 | rewrite Q6
      | rewrite Q7 ];
    try (simpl; congruence).
  rewrite suggestion_completed_items, !image_completed_items,
    suggestion_completed_items.
  destruct (suggestionUpdate rs) as [f|] eqn:Hf; [|reflexivity].
  rewrite !patch_patch by
    (intros; first [apply imageUpdate_id | eapply suggestionUpdate_id; eassumption]).
  apply patch_ext. intros item. now apply updates_commute with (rs := rs).
Qed.

(** C1.  The patch of an image response changes nothing of an item but
    its image fields ([imageUrl], [isLoadingImage]); the patch of a
    suggestion response changes nothing but its suggestion fields
    ([healthSuggestion], [suggestionReason], [showingSuggestion],
    [isLoadingSuggestion]).  The two completions commute, and after both,
    in either order, the image fields are those the image response alone
    produces and the suggestion fields those the suggestion response alone
    produces. *)
Theorem completion_patches_are_disjoint
  (s : AppState) (itemId : str) (ri : ImageResponse) (rs : SuggestionResponse) :
  let afterImage := fst (getItemImage_completed itemId ri s) in
  let afterSuggestion := fst (getHealthSuggestion_completed itemId rs s) in
  let imageFirst := fst (getHealthSuggestion_completed itemId rs afterImage) in
  let suggestionFirst := fst (getItemImage_completed itemId ri afterSuggestion) in
  List.map offImageAxis (items afterImage) = List.map offImageAxis (items s) /\
  List.map offSuggestionAxis (items afterSuggestion)
    = List.map offSuggestionAxis (items s) /\
  imageFirst = suggestionFirst /\
  List.map imageAxis (items imageFirst) = List.map imageAxis (items afterImage) /\
  List.map suggestionAxis (items suggestionFirst)
    = List.map suggestionAxis (items afterSuggestion).
Proof.
  intros afterImage afterSuggestion imageFirst suggestionFirst.
  assert (Himg : forall t,
    List.map offImageAxis (items (fst (getItemImage_completed itemId ri t)))
    = List.map offImageAxis (items t)).
  { intros t. rewrite image_completed_items.
    apply patch_frame. apply imageUpdate_off. }
  assert (Hsug : forall t,
    List.map offSuggestionAxis (items (fst (getHealthSuggestion_completed itemId rs t)))
    = List.map offSuggestionAxis (items t)).
  { intros t. rewrite suggestion_completed_items.
    destruct (suggestionUpdate rs) as [f|] eqn:Hf; [|reflexivity].
    apply patch_frame. intros item. now apply suggestionUpdate_off with (r := rs). }
  repeat split.
  - apply Himg.
  - apply Hsug.
  - apply completions_commute.
  - specialize (Hsug afterImage). fold imageFirst in Hsug.
    apply (f_equal (List.map snd)) in Hsug. rewrite !map_map in Hsug.
    exact Hsug.
  - specialize (Himg afterSuggestion). fold suggestionFirst in Himg.
    apply (f_equal (List.map snd)) in Himg. rewrite !map_map in Himg.
    exact Himg.
Qed.

(** * Completions for an item that is gone *)

Lemma deleted_id_absent capturedItems itemId s :
  ~ In itemId (ids (fst (deleteItem_onPress capturedItems itemId s))).
Proof.
  unfold ids. simpl. intros H. apply in_map_iff in H as (item & E & Hin).
  apply filter_In in Hin as [_ Hne].
  rewrite <- E, JS_eqb_refl in Hne. discriminate.
Qed.

Lemma image_completed_absent itemId r s :
  ~ In itemId (ids s) -> getItemImage_completed itemId r s = (s, []).
Proof.
  intros H. unfold getItemImage_completed, setItems.
  rewrite (patch_absent _ _ _ H). now rewrite state_eta.
Qed.

Lemma suggestion_completed_absent itemId r s :
  ~ In itemId (ids s) -> fst (getHealthSuggestion_completed itemId r s) = s.
Proof.
  intros H.
  pose proof (suggestion_completed_rest itemId r s)
    as (R1 & R2 & R3 & R4 & R5 & R6 & R7).
  apply state_ext; auto.
  rewrite suggestion_completed_items.
  destruct (suggestionUpdate r); [|reflexivity].
  now apply patch_absent.
Qed.

(** C2.  A completion addressed to an id that no item of the collection
    carries leaves the whole state as it is, for every response of either
    fetch; both completion handlers are total functions, so nothing is
    raised.  In particular this is the case once the Delete button has
    removed the item, whatever collection its dialog was opened with: the
    id is then absent and the state stays the one the deletion produced. *)
Theorem completion_for_absent_id_is_dropped (s : AppState) (itemId : str) :
  (~ In itemId (ids s) ->
   (forall r, fst (getItemImage_completed itemId r s) = s) /\
   (forall r, fst (getHealthSuggestion_completed itemId r s) = s)) /\
  (forall capturedItems,
   let deleted := fst (deleteItem_onPress capturedItems itemId s) in
   ~ In itemId (ids deleted) /\
   (forall r, fst (getItemImage_completed itemId r deleted) = deleted) /\
   (forall r, fst (getHealthSuggestion_completed itemId r deleted) = deleted)).
Proof.
  split.
  - intros H. split; intros r.
    + now rewrite image_completed_absent.
    + now apply suggestion_completed_absent.
  - intros capturedItems deleted.
    pose proof (deleted_id_absent capturedItems itemId s) as H. split; [exact H|].
    split; intros r.
    + now rewrite image_completed_absent.
    + now apply suggestion_completed_absent.
Qed.

Lemma completion_for_absent_id_is_dropped_witness :
  ~ In (JS.lit "999") (ids peanutButterPending) /\
  (forall r, fst (getItemImage_completed (JS.lit "999") r peanutButterPending)
             = peanutButterPending) /\
  (forall r, fst (getHealthSuggestion_completed (JS.lit "999") r peanutButterPending)
             = peanutButterPending).
Proof.
  assert (H : ~ In (JS.lit "999") (ids peanutButterPending)).
  { vm_compute. intros [E|[]]. discriminate E. }
  split; [exact H|].
  exact (proj1 (completion_for_absent_id_is_dropped peanutButterPending (JS.lit "999")) H).
Defined.

(** * The credential guards *)

(** The two dispatches are independent: with an image key and no
    suggestion key, adding an item opens the key dialog and still requests
    the image. *)
Remark image_dispatch_ignores_suggestion_key :
  let s := run [SaveApiKeys [] (JS.lit "px");
                OnChangeInputText (JS.lit "Peanut butter")] initialState in
  snd (addItem 1000 s)
  = [FocusInput; FetchImage (JS.lit "1000") (JS.lit "Peanut butter") (JS.lit "px")].
Proof. vm_compute. reflexivity. Qed.

(** * Adding an item *)

(** C10.  When the input text trims to the empty string, [addItem] returns
    at its first statement: the state is unchanged, so no item is appended,
    and no effect is emitted, so neither fetch is dispatched. *)
Theorem addItem_blank_is_noop (now : Z) (s : AppState) :
  JS.trim (inputText s) = [] -> addItem now s = (s, []).
Proof.
  intros H. unfold addItem. rewrite H. reflexivity.
Qed.

Lemma addItem_blank_is_noop_witness :
  let s := fst (setInputText (JS.lit "   ") peanutButterPending) in
  JS.trim (inputText s) = [] /\ addItem 2000 s = (s, []).
Proof.
  intros s. split.
  - reflexivity.
  - apply (addItem_blank_is_noop 2000 s). reflexivity.
Defined.

(** * The suggestion parser *)

Lemma trimStart_length (s : str) : length (JS.trimStart s) <= length s.
Proof.
  induction s as [|c r IH]; simpl; [lia|].
  destruct (JS.isWhiteSpace c); simpl; lia.
Qed.

Lemma trimStart_same_length (s : str) :
  length (JS.trimStart s) = length s -> JS.trimStart s = s.
Proof.
  destruct s as [|c r]; simpl; [reflexivity|].
  destruct (JS.isWhiteSpace c); [|reflexivity].
  pose proof (trimStart_length r). lia.
Qed.

Lemma trimEnd_length (s : str) : length (JS.trimEnd s) <= length s.
Proof.
  unfold JS.trimEnd. rewrite length_rev.
  pose proof (trimStart_length (rev s)). rewrite length_rev in *. lia.
Qed.

(** A string that [trim] leaves alone is left alone by both halves. *)
Lemma trim_fixed (s : str) :
  JS.trim s = s -> JS.trimStart s = s /\ JS.trimStart (rev s) = rev s.
Proof.
  intros H.
  assert (Hs : JS.trimStart s = s).
  { apply trimStart_same_length.
    pose proof (trimStart_length s).
    pose proof (trimEnd_length (JS.trimStart s)).
    unfold JS.trim in H. rewrite H in *. lia. }
  split; [exact Hs|].
  unfold JS.trim in H. rewrite Hs in H. unfold JS.trimEnd in H.
  apply (f_equal (@rev N)) in H. now rewrite rev_involutive in H.
Qed.

Lemma inked_trimStart (s : str) : inked s -> JS.trimStart s = s.
Proof. destruct s as [|c r]; simpl; [tauto|]. now intros ->. Qed.

Lemma trimStart_fixed_inked (s : str) : s <> [] -> JS.trimStart s = s -> inked s.
Proof.
  destruct s as [|c r]; [congruence|]. intros _. simpl.
  destruct (JS.isWhiteSpace c) eqn:E; [|reflexivity].
  intros H. pose proof (trimStart_length r) as L. rewrite H in L. simpl in L. lia.
Qed.

Lemma inked_app (s t : str) : inked s -> inked (s ++ t).
Proof. destruct s; simpl; tauto. Qed.

Lemma tight_trim (s : str) : tight s -> JS.trim s = s.
Proof.
  intros [H1 H2]. unfold JS.trim, JS.trimEnd.
  rewrite (inked_trimStart _ H1), (inked_trimStart _ H2).
  apply rev_involutive.
Qed.

Lemma trim_fixed_tight (s : str) : s <> [] -> JS.trim s = s -> tight s.
Proof.
  intros Hne H. apply trim_fixed in H as [H1 H2]. split.
  - now apply trimStart_fixed_inked.
  - apply trimStart_fixed_inked; [|exact H2].
    intros E. apply Hne. apply (f_equal (@rev N)) in E.
    now rewrite rev_involutive in E.
Qed.

Lemma tight_join (sep : str) (a : list str) :
  a <> [] -> Forall tight a -> tight (JS.join sep a).
Proof.
  induction a as [|x r IH]; [congruence|]. intros _ HF.
  inversion HF as [|? ? Hx Hr]; subst.
  destruct r as [|y r']; [exact Hx|].
  assert (Ht : tight (JS.join sep (y :: r'))) by (apply IH; [discriminate|exact Hr]).
  change (JS.join sep (x :: y :: r')) with (x ++ sep ++ JS.join sep (y :: r')).
  destruct Hx as [Hx1 Hx2], Ht as [Ht1 Ht2]. split.
  - now apply inked_app.
  - rewrite !rev_app_distr, <- app_assoc. now apply inked_app.
Qed.

Lemma suggestionLines_not_blank (suggestion line : str) :
  In line (suggestionLines suggestion) -> JS.trim line <> [].
Proof.
  unfold suggestionLines. intros H. apply filter_In in H as [_ H].
  unfold isBlank in H. apply negb_true_iff, JS_eqb_neq in H. exact H.
Qed.


Lemma parseSuggestion_none (suggestion : str) :
  fst (parseSuggestion suggestion) = None <-> suggestionLines suggestion = [].
Proof.
  unfold parseSuggestion. simpl.
  destruct (suggestionLines suggestion); simpl; split; congruence.
Qed.

(** C8, as the code has it.  The parser is a total function of its text.
    It splits on line feeds and keeps the lines that are not empty after
    trimming; the alternative is the first kept line, trimmed, and is
    undefined exactly when no line is kept; the reason is the other kept
    lines joined by one space, the joined text trimmed, and is empty when
    at most one line is kept.  On a text whose kept lines have no white
    space at either end this is exactly the first kept line and the join
    of the others.  The text "Oat milk", blank line, "Because it has less
    sugar." gives that alternative and that reason, and the empty text
    gives an undefined alternative. *)
Theorem parseSuggestion_correct (suggestion : str) :
  let lines := suggestionLines suggestion in
  parseSuggestion suggestion
    = (option_map JS.trim (hd_error lines), JS.trim (JS.join [JS.SP] (tl lines))) /\
  (fst (parseSuggestion suggestion) = None <-> lines = []) /\
  snd (parseSuggestion suggestion)
    = match lines with
      | _ :: _ :: _ => JS.trim (JS.join [JS.SP] (tl lines))
      | _ => []
      end /\
  (Forall (fun line => JS.trim line = line) lines ->
   parseSuggestion suggestion = parseSuggestion_spec suggestion) /\
  parseSuggestion (JS.lit ("Oat milk" ++ JS.nl ++ JS.nl ++ "Because it has less sugar."))
    = (Some (JS.lit "Oat milk"), JS.lit "Because it has less sugar.") /\
  parseSuggestion [] = (None, []).
Proof.
  intros lines.
  assert (Hgen : parseSuggestion suggestion
    = (option_map JS.trim (hd_error lines), JS.trim (JS.join [JS.SP] (tl lines)))).
  { unfold parseSuggestion. fold lines.
    destruct lines as [|l [|l' ls]]; reflexivity. }
  split; [exact Hgen|].
  split; [apply parseSuggestion_none|].
  split.
  { unfold parseSuggestion. fold lines.
    destruct lines as [|l [|l' ls]]; reflexivity. }
  split; [|split; vm_compute; reflexivity].
  intros Hfix. rewrite Hgen. unfold parseSuggestion_spec. fold lines.
  assert (Htight : Forall tight lines).
  { apply Forall_forall. intros line Hin.
    pose proof (proj1 (Forall_forall _ _) Hfix line Hin) as Hl.
    apply trim_fixed_tight; [|exact Hl].
    rewrite <- Hl. now apply suggestionLines_not_blank with (suggestion := suggestion). }
  destruct lines as [|l ls]; [reflexivity|].
  inversion Hfix as [|? ? Hl Hls]; inversion Htight as [|? ? Tl Tls]; subst.
  simpl. rewrite Hl. f_equal.
  destruct ls as [|l' ls']; [reflexivity|].
  apply tight_trim, tight_join; [discriminate|exact Tls].
Qed.

Lemma parseSuggestion_correct_witness :
  let text := JS.lit ("Oat milk" ++ JS.nl ++ JS.nl ++ "Because it has less sugar.") in
  Forall (fun line => JS.trim line = line) (suggestionLines text) /\
  parseSuggestion text = parseSuggestion_spec text.
Proof.
  intros text.
  assert (H : Forall (fun line => JS.trim line = line) (suggestionLines text)).
  { vm_compute. repeat constructor. }
  split; [exact H|].
  destruct (parseSuggestion_correct text) as (_ & _ & _ & Hspec & _).
  exact (Hspec H).
Defined.

(** C8 as written fails on lines that carry white space: on the text
    " a", "b ", "c" the code returns the alternative "a" and the reason
    "b  c" (two spaces), where the first kept line is " a", and where the
    trimmed lines joined by one space are "b c". *)
Lemma parseSuggestion_keeps_inner_space :
  let text := JS.lit (" a" ++ JS.nl ++ "b " ++ JS.nl ++ "c") in
  parseSuggestion text = (Some (JS.lit "a"), JS.lit "b  c") /\
  parseSuggestion_spec text = (Some (JS.lit " a"), JS.lit "b  c") /\
  parseSuggestion_spec_trimmed text = (Some (JS.lit "a"), JS.lit "b c") /\
  parseSuggestion text <> parseSuggestion_spec text /\
  parseSuggestion text <> parseSuggestion_spec_trimmed text.
Proof.
  intros text. repeat split; try (vm_compute; reflexivity);
    vm_compute; discriminate.
Qed.

(** * A successful response without text *)

(** C3, at the failing input.  A successful response whose content is
    absent, or is the empty string, runs no update: the state is returned
    as it was, so an item whose [isLoadingSuggestion] is true keeps it
    true.  The image handler, on a successful response without a picture,
    does reset [isLoadingImage]. *)
Theorem empty_suggestion_leaves_loading :
  (forall s itemId,
     getHealthSuggestion_completed itemId (SuggestionOk None) s = (s, []) /\
     getHealthSuggestion_completed itemId (SuggestionOk (Some [])) s = (s, [])) /\
  List.map isLoadingSuggestion (items peanutButterPending) = [Some true] /\
  List.map isLoadingSuggestion
    (items (run [SuggestionCompleted (JS.lit "1000") (SuggestionOk None)]
                peanutButterPending)) = [Some true] /\
  List.map isLoadingSuggestion
    (items (run [SuggestionCompleted (JS.lit "1000") (SuggestionOk (Some []))]
                peanutButterPending)) = [Some true] /\
  List.map isLoadingImage
    (items (run [ImageCompleted (JS.lit "1000") (ImageOk None)]
                peanutButterPending)) = [Some false].
Proof.
  split; [intros s itemId; split; reflexivity|].
  repeat split; vm_compute; reflexivity.
Qed.

(** * What each action does to the collection *)

Lemma andThen_fst (h k : Handler) s : fst ((h ;; k) s) = fst (k (fst (h s))).
Proof. unfold andThen. destruct (h s) as [s1 e1]. simpl. now destruct (k s1). Qed.

Lemma andThen_snd (h k : Handler) s :
  snd ((h ;; k) s) = snd (h s) ++ snd (k (fst (h s))).
Proof. unfold andThen. destruct (h s) as [s1 e1]. simpl. now destruct (k s1). Qed.

Lemma getItemImage_items itemId itemName s :
  items (fst (getItemImage itemId itemName s)) =
  match configured (pexelsApiKey s) with
  | Some _ => patch itemId markLoadingImage (items s)
  | None => items s
  end.
Proof. unfold getItemImage. now destruct (configured (pexelsApiKey s)). Qed.

Lemma getHealthSuggestion_items itemId itemName s :
  items (fst (getHealthSuggestion itemId itemName s)) =
  match configured (apiKey s) with
  | Some _ => patch itemId markLoadingSuggestion (items s)
  | None => items s
  end.
Proof. unfold getHealthSuggestion. now destruct (configured (apiKey s)). Qed.

Lemma getHealthSuggestion_pexelsApiKey itemId itemName s :
  pexelsApiKey (fst (getHealthSuggestion itemId itemName s)) = pexelsApiKey s.
Proof. unfold getHealthSuggestion. now destruct (configured (apiKey s)). Qed.

Lemma getHealthSuggestion_pendingDelete itemId itemName s :
  pendingDelete (fst (getHealthSuggestion itemId itemName s)) = pendingDelete s.
Proof. unfold getHealthSuggestion. now destruct (configured (apiKey s)). Qed.

Lemma getItemImage_pendingDelete itemId itemName s :
  pendingDelete (fst (getItemImage itemId itemName s)) = pendingDelete s.
Proof. unfold getItemImage. now destruct (configured (pexelsApiKey s)). Qed.

Lemma addItem_items now s :
  items (fst (addItem now s)) =
  if JS.eqb (JS.trim (inputText s)) [] then items s
  else
    let itemId := JS.toString now in
    let appended := items s ++ [newItem itemId (JS.trim (inputText s))] in
    let marked :=
      match configured (apiKey s) with
      | Some _ => patch itemId markLoadingSuggestion appended
      | None => appended
      end in
    match configured (pexelsApiKey s) with
    | Some _ => patch itemId markLoadingImage marked
    | None => marked
    end.
Proof.
  unfold addItem. destruct (JS.eqb (JS.trim (inputText s)) []); [reflexivity|].
  rewrite !andThen_fst, getItemImage_items, getHealthSuggestion_pexelsApiKey,
    getHealthSuggestion_items.
  reflexivity.
Qed.

Lemma replaceFoodItem_items itemId s :
  items (fst (replaceFoodItem itemId s)) =
  match find (fun i => JS.eqb (id i) itemId) (items s) with
  | Some item =>
      match healthSuggestion item with
      | Some newName =>
          if JS.truthy newName then
            let accepted :=
              List.map (fun i =>
                if JS.eqb (id i) itemId && truthyStr (healthSuggestion i)
                then replaced newName i else i) (items s) in
            match configured (pexelsApiKey s) with
            | Some _ => patch itemId markLoadingImage accepted
            | None => accepted
            end
          else items s
      | None => items s
      end
  | None => items s
  end.
Proof.
  unfold replaceFoodItem, replaceFoodItem_from.
  destruct (find _ (items s)) as [item|]; [|reflexivity].
  destruct (healthSuggestion item) as [newName|]; [|reflexivity].
  destruct (JS.truthy newName); [|reflexivity].
  rewrite andThen_fst, getItemImage_items. reflexivity.
Qed.

Lemma startEditing_items itemId s :
  items (fst (startEditing itemId s)) =
  List.map (fun item => withEditing (JS.eqb (id item) itemId) item) (items s).
Proof.
  unfold startEditing. rewrite andThen_fst. simpl.
  apply map_ext. intros item. now destruct (JS.eqb (id item) itemId).
Qed.

Lemma saveEdit_items itemId s :
  items (fst (saveEdit itemId s)) =
  if JS.eqb (JS.trim (editText s)) [] then items s
  else patch itemId (renamed (JS.trim (editText s))) (items s).
Proof.
  unfold saveEdit. destruct (JS.eqb (JS.trim (editText s)) []); reflexivity.
Qed.

Lemma getApiKeys_loaded_items k1 k2 s :
  items (fst (getApiKeys_loaded k1 k2 s)) = items s.
Proof.
  unfold getApiKeys_loaded. rewrite !andThen_fst.
  destruct (negb (truthyStr k1) || negb (truthyStr k2));
    destruct (configured k2); destruct (configured k1); reflexivity.
Qed.

Lemma saveApiKeys_items k1 k2 ok1 ok2 s :
  items (fst (saveApiKeys k1 k2 ok1 ok2 s)) = items s.
Proof.
  unfold saveApiKeys.
  destruct (JS.eqb (JS.trim k1) []); destruct (JS.eqb (JS.trim k2) []);
    destruct ok1; destruct ok2; reflexivity.
Qed.

(** The collection after one action, as a function of the collection
    before. *)
Lemma step_items a s :
  items (fst (step a s)) =
  match a with
  | AddItem now => items (fst (addItem now s))
  | ConfirmDelete =>
      match pendingDelete s with
      | Some (itemId, capturedItems) =>
          filter (fun item => negb (JS.eqb (id item) itemId)) capturedItems
      | None => items s
      end
  | StartEditing itemId =>
      List.map (fun item => withEditing (JS.eqb (id item) itemId) item) (items s)
  | SaveEdit itemId => items (fst (saveEdit itemId s))
  | ReplaceFoodItem itemId => items (fst (replaceFoodItem itemId s))
  | DismissSuggestion itemId => patch itemId dismissed (items s)
  | SuggestionCompleted itemId r =>
      match suggestionUpdate r with
      | Some f => patch itemId f (items s)
      | None => items s
      end
  | ImageCompleted itemId r => patch itemId (imageUpdate r) (items s)
  | _ => items s
  end.
Proof.
  destruct a; simpl step; try reflexivity.
  - unfold confirmDelete. now destruct (pendingDelete s) as [[itemId capturedItems]|].
  - apply startEditing_items.
  - apply suggestion_completed_items.
  - apply getApiKeys_loaded_items.
  - apply saveApiKeys_items.
  - apply saveApiKeys_items.
Qed.

(** The collection an open dialog closes over, after one action. *)
Lemma step_snapshot a s :
  snapshot (fst (step a s)) =
  match a with
  | DeleteItem _ => items s
  | ConfirmDelete | CancelDelete => []
  | _ => snapshot s
  end.
Proof.
  unfold snapshot. destruct a; simpl step; try reflexivity.
  - unfold addItem. destruct (JS.eqb (JS.trim (inputText s)) []); [reflexivity|].
    rewrite !andThen_fst, getItemImage_pendingDelete, getHealthSuggestion_pendingDelete.
    reflexivity.
  - unfold confirmDelete.
    destruct (pendingDelete s) as [[itemId capturedItems]|] eqn:E;
      simpl; rewrite ?E; reflexivity.
  - unfold saveEdit. now destruct (JS.eqb (JS.trim (editText s)) []).
  - unfold replaceFoodItem, replaceFoodItem_from.
    destruct (find _ (items s)) as [item|]; [|reflexivity].
    destruct (healthSuggestion item) as [newName|]; [|reflexivity].
    destruct (JS.truthy newName); [|reflexivity].
    rewrite andThen_fst, getItemImage_pendingDelete. reflexivity.
  - now destruct (suggestion_completed_rest itemId r s) as (_ & _ & _ & _ & _ & -> & _).
  - unfold getApiKeys_loaded. rewrite !andThen_fst.
    destruct (negb (truthyStr storedApiKey) || negb (truthyStr storedPexelsKey));
      destruct (configured storedPexelsKey); destruct (configured storedApiKey);
      reflexivity.
  - unfold saveApiKeys.
    destruct (JS.eqb (JS.trim apiKeyInput) []);
      destruct (JS.eqb (JS.trim pexelsApiKeyInput) []); reflexivity.
  - unfold saveApiKeys.
    destruct (JS.eqb (JS.trim apiKeyInput) []);
      destruct (JS.eqb (JS.trim pexelsApiKeyInput) []);
      destruct healthStored; destruct pexelsStored; reflexivity.
Qed.

Lemma run_snoc acts a s : run (acts ++ [a]) s = fst (step a (run acts s)).
Proof. unfold run. now rewrite fold_left_app. Qed.

(** ** Properties kept item by item *)

Lemma Forall_patch (P : GroceryItem -> Prop) itemId f l :
  (forall item, P item -> P (f item)) -> Forall P l -> Forall P (patch itemId f l).
Proof.
  intros Hf Hl. unfold patch. apply Forall_map.
  apply Forall_impl with (2 := Hl). intros item Hi.
  destruct (JS.eqb (id item) itemId); auto.
Qed.

Lemma Forall_keep (P : GroceryItem -> Prop) p l :
  Forall P l -> Forall P (filter p l).
Proof.
  intros Hl. apply Forall_forall. intros item Hin.
  apply filter_In in Hin as [Hin _]. now apply (proj1 (Forall_forall _ _) Hl).
Qed.

Section Itemwise.

Variable P : GroceryItem -> Prop.
Variable admitted : Action -> bool.

Hypothesis P_newItem : forall i n, P (newItem i n).
Hypothesis P_markLoadingImage : forall item, P item -> P (markLoadingImage item).
Hypothesis P_markLoadingSuggestion :
  forall item, P item -> P (markLoadingSuggestion item).
Hypothesis P_imageLoaded : forall url item, P item -> P (imageLoaded url item).
Hypothesis P_imageNotLoaded : forall item, P item -> P (imageNotLoaded item).
Hypothesis P_suggestionNotLoaded :
  forall item, P item -> P (suggestionNotLoaded item).
Hypothesis P_replaced : forall newName item, P item -> P (replaced newName item).
Hypothesis P_dismissed : forall item, P item -> P (dismissed item).
Hypothesis P_withEditing :
  forall itemId item,
    admitted (StartEditing itemId) = true -> P item ->
    P (withEditing (JS.eqb (id item) itemId) item).
Hypothesis P_renamed : forall newName item, P item -> P (renamed newName item).
Hypothesis P_suggestionLoaded :
  forall itemId text item,
    admitted (SuggestionCompleted itemId (SuggestionOk (Some text))) = true ->
    JS.truthy text = true -> P item ->
    P (suggestionLoaded (fst (parseSuggestion text)) (snd (parseSuggestion text)) item).

Lemma itemwise_step_items a s :
  admitted a = true -> Forall P (items s) ->
  (a = ConfirmDelete -> Forall P (snapshot s)) ->
  Forall P (items (fst (step a s))).
Proof.
  intros Ha H Hsnap. rewrite step_items. destruct a; auto.
  - (* addItem *)
    rewrite addItem_items. destruct (JS.eqb (JS.trim (inputText s)) []); auto.
    assert (Happ : Forall P (items s ++ [newItem (JS.toString now) (JS.trim (inputText s))])).
    { apply Forall_app. split; auto. }
    cbv zeta.
    destruct (configured (pexelsApiKey s)), (configured (apiKey s));
      auto using Forall_patch.
  - (* the dialog's Delete button *)
    specialize (Hsnap eq_refl). unfold snapshot in Hsnap.
    destruct (pendingDelete s) as [[itemId capturedItems]|]; auto using Forall_keep.
  - (* startEditing *)
    apply Forall_map. apply Forall_impl with (2 := H). auto.
  - (* saveEdit *)
    rewrite saveEdit_items. destruct (JS.eqb (JS.trim (editText s)) []);
      auto using Forall_patch.
  - (* replaceFoodItem *)
    rewrite replaceFoodItem_items.
    destruct (find _ (items s)) as [item|]; auto.
    destruct (healthSuggestion item) as [newName|]; auto.
    destruct (JS.truthy newName); auto. cbv zeta.
    assert (Hacc : Forall P (List.map (fun i =>
              if JS.eqb (id i) itemId && truthyStr (healthSuggestion i)
              then replaced newName i else i) (items s))).
    { apply Forall_map. apply Forall_impl with (2 := H). intros i Hi.
      destruct (JS.eqb (id i) itemId && truthyStr (healthSuggestion i)); auto. }
    destruct (configured (pexelsApiKey s)); auto using Forall_patch.
  - (* dismissSuggestion *) auto using Forall_patch.
  - (* suggestion response *)
    destruct r as [|[text|]]; simpl; auto using Forall_patch.
    destruct (JS.truthy text) eqn:Ht; auto.
    apply Forall_patch; auto. intros item Hi.
    now apply P_suggestionLoaded with (itemId := itemId).
  - (* image response *)
    apply Forall_patch; auto. intros item Hi.
    destruct r as [|[url|]]; simpl; auto.
    destruct (JS.truthy url); auto.
Qed.



End Itemwise.

(** * A shown suggestion and a present one *)






(** * Ids *)

Lemma lit_inj (a b : string) : JS.lit a = JS.lit b -> a = b.
Proof.
  unfold JS.lit. revert b.
  induction a as [|x a IH]; intros [|y b]; simpl; try congruence.
  intros H. injection H as Hx Hr. f_equal.
  - rewrite <- (ascii_N_embedding x), <- (ascii_N_embedding y). now rewrite Hx.
  - now apply IH.
Qed.

(** Two clock readings with the same decimal string are equal. *)
Lemma toString_inj (m n : Z) : JS.toString m = JS.toString n -> m = n.
Proof.
  unfold JS.toString. intros H. apply lit_inj in H.
  apply DecimalZ.to_int_inj.
  pose proof (DecimalString.NilEmpty.isi (Z.to_int m)) as Hm.
  pose proof (DecimalString.NilEmpty.isi (Z.to_int n)) as Hn.
  rewrite H in Hm. congruence.
Qed.

Lemma map_id_filter (p : str -> bool) (l : list GroceryItem) :
  List.map id (filter (fun item => p (id item)) l) = filter p (List.map id l).
Proof.
  induction l as [|item l IH]; simpl; [reflexivity|].
  destruct (p (id item)); simpl; now rewrite IH.
Qed.

(** Only [addItem] and the Delete button change the sequence of ids. *)
Lemma ids_step a s :
  ids (fst (step a s)) =
  match a with
  | AddItem now =>
      if JS.eqb (JS.trim (inputText s)) [] then ids s
      else ids s ++ [JS.toString now]
  | ConfirmDelete =>
      match pendingDelete s with
      | Some (itemId, _) => filter (fun i => negb (JS.eqb i itemId)) (snapshotIds s)
      | None => ids s
      end
  | _ => ids s
  end.
Proof.
  unfold ids. rewrite step_items. destruct a; try reflexivity.
  - rewrite addItem_items. destruct (JS.eqb (JS.trim (inputText s)) []); [reflexivity|].
    cbv zeta.
    destruct (configured (pexelsApiKey s)), (configured (apiKey s));
      rewrite ?patch_frame by reflexivity;
      rewrite map_app; reflexivity.
  - unfold snapshotIds, snapshot.
    destruct (pendingDelete s) as [[itemId capturedItems]|]; [|reflexivity].
    apply (map_id_filter (fun i => negb (JS.eqb i itemId))).
  - unfold id at 1. rewrite map_map. reflexivity.
  - rewrite saveEdit_items. destruct (JS.eqb (JS.trim (editText s)) []); [reflexivity|].
    now apply patch_frame.
  - rewrite replaceFoodItem_items.
    destruct (find _ (items s)) as [item|]; [|reflexivity].
    destruct (healthSuggestion item) as [newName|]; [|reflexivity].
    destruct (JS.truthy newName); [|reflexivity]. cbv zeta.
    assert (E : List.map id (List.map (fun i =>
                if JS.eqb (id i) itemId && truthyStr (healthSuggestion i)
                then replaced newName i else i) (items s)) = List.map id (items s)).
    { rewrite map_map. apply map_ext. intros i.
      now destruct (JS.eqb (id i) itemId && truthyStr (healthSuggestion i)). }
    destruct (configured (pexelsApiKey s));
      rewrite ?patch_frame by reflexivity; exact E.
  - now apply patch_frame.
  - destruct (suggestionUpdate r) as [f|] eqn:Hf; [|reflexivity].
    apply patch_frame. intros item. now apply suggestionUpdate_id with (r := r).
  - apply patch_frame. apply imageUpdate_id.
Qed.

Lemma clockReadings_app acts1 acts2 :
  clockReadings (acts1 ++ acts2) = clockReadings acts1 ++ clockReadings acts2.
Proof.
  induction acts1 as [|a acts1 IH]; [reflexivity|].
  destruct a; simpl; now rewrite IH.
Qed.

Lemma snapshotIds_step a s :
  snapshotIds (fst (step a s)) =
  match a with
  | DeleteItem _ => ids s
  | ConfirmDelete | CancelDelete => []
  | _ => snapshotIds s
  end.
Proof. unfold snapshotIds. rewrite step_snapshot. now destruct a. Qed.

(** Every id of the collection, and of the collection an open dialog
    holds, is the decimal string of the clock reading of some [addItem]
    call of the run. *)
Lemma all_ids_from_clock acts :
  incl (ids (run acts initialState)) (List.map JS.toString (clockReadings acts)) /\
  incl (snapshotIds (run acts initialState))
       (List.map JS.toString (clockReadings acts)).
Proof.
  induction acts as [|a acts [IH IHs]] using rev_ind; [split; intros x []|].
  rewrite run_snoc, ids_step, snapshotIds_step, clockReadings_app, map_app.
  destruct a; try (simpl; rewrite app_nil_r; now split); simpl.
  - split.
    + destruct (JS.eqb (JS.trim (inputText (run acts initialState))) []).
      * intros x Hx. apply in_or_app. left. now apply IH.
      * intros x Hx. apply in_app_or in Hx. apply in_or_app.
        destruct Hx as [Hx|Hx]; [left; now apply IH|right; exact Hx].
    + intros x Hx. apply in_or_app. left. now apply IHs.
  - rewrite app_nil_r. split; [|intros x []].
    destruct (pendingDelete (run acts initialState)) as [[itemId capturedItems]|];
      [|exact IH].
    intros x Hx. apply filter_In in Hx as [Hx _]. now apply IHs.
Qed.

Lemma ids_from_clock acts :
  incl (ids (run acts initialState)) (List.map JS.toString (clockReadings acts)).
Proof. apply all_ids_from_clock. Qed.

Lemma NoDup_snoc {A} (l : list A) (x : A) :
  NoDup (l ++ [x]) <-> NoDup l /\ ~ In x l.
Proof.
  split.
  - intros H. apply NoDup_remove in H. rewrite app_nil_r in H. exact H.
  - intros [H1 H2]. apply NoDup_rev in H1.
    rewrite <- (rev_involutive (l ++ [x])). apply NoDup_rev.
    rewrite rev_app_distr. simpl. constructor; [|exact H1].
    now rewrite <- in_rev.
Qed.

Lemma fresh_reading_fresh_id acts now :
  ~ In now (clockReadings acts) ->
  ~ In (JS.toString now) (List.map JS.toString (clockReadings acts)).
Proof.
  intros H Hin. apply in_map_iff in Hin as (m & E & Hm).
  apply toString_inj in E. now subst.
Qed.

Lemma distinct_readings_all_distinct_ids acts :
  NoDup (clockReadings acts) ->
  NoDup (ids (run acts initialState)) /\ NoDup (snapshotIds (run acts initialState)).
Proof.
  induction acts as [|a acts IH] using rev_ind; [split; constructor|].
  rewrite clockReadings_app, run_snoc, ids_step, snapshotIds_step. intros Hnd.
  destruct a;
    try (simpl in Hnd; rewrite app_nil_r in Hnd; destruct (IH Hnd); now split).
  - simpl in Hnd. apply NoDup_snoc in Hnd as [Hnd Hnew].
    destruct (IH Hnd) as [Hi Hs]. split; [|exact Hs].
    destruct (JS.eqb (JS.trim (inputText (run acts initialState))) []); [exact Hi|].
    apply NoDup_snoc. split; [exact Hi|].
    intros Hin. apply ids_from_clock in Hin.
    now apply (fresh_reading_fresh_id acts now).
  - simpl in Hnd. rewrite app_nil_r in Hnd. destruct (IH Hnd) as [Hi Hs].
    split; [|constructor].
    destruct (pendingDelete (run acts initialState)) as [[itemId capturedItems]|];
      [|exact Hi].
    now apply NoDup_filter.
  - simpl in Hnd. rewrite app_nil_r in Hnd. destruct (IH Hnd) as [Hi Hs].
    split; [exact Hi|constructor].
Qed.

Lemma distinct_readings_distinct_ids acts :
  NoDup (clockReadings acts) -> NoDup (ids (run acts initialState)).
Proof. intros H. now apply distinct_readings_all_distinct_ids. Qed.


Lemma addItem_effects now s :
  JS.eqb (JS.trim (inputText s)) [] = false ->
  snd (addItem now s) =
  [FocusInput] ++
  match configured (apiKey s) with
  | Some key => [FetchSuggestion (JS.toString now) (JS.trim (inputText s)) key]
  | None => []
  end ++
  match configured (pexelsApiKey s) with
  | Some key => [FetchImage (JS.toString now) (JS.trim (inputText s)) key]
  | None => []
  end.
Proof.
  intros Hb. unfold addItem. rewrite Hb.
  rewrite !andThen_snd, ?andThen_fst. simpl.
  unfold getItemImage. rewrite getHealthSuggestion_pexelsApiKey.
  unfold getHealthSuggestion. simpl.
  destruct (configured (apiKey s)), (configured (pexelsApiKey s)); reflexivity.
Qed.




(** * Editing *)

(** The actions that keep [isEditing] as it is or clear it, on the items
    of the collection. *)
Lemma editingOnly_kept eid a s :
  (forall itemId, a <> StartEditing itemId) -> a <> ConfirmDelete ->
  Forall (editingOnly eid) (items s) ->
  Forall (editingOnly eid) (items (fst (step a s))).
Proof.
  intros Hs Hc H.
  apply itemwise_step_items with
    (admitted := fun a => match a with StartEditing _ => false | _ => true end);
    try exact H;
    try (unfold editingOnly; simpl; now auto);
    try (unfold editingOnly; simpl; intros; discriminate).
  destruct a; try reflexivity. exfalso. now apply (Hs itemId).
Qed.

(** The items being edited share one id, in the collection and in the
    collection an open dialog holds. *)
Lemma editingOnly_run acts :
  (exists eid, Forall (editingOnly eid) (items (run acts initialState))) /\
  (exists eid, Forall (editingOnly eid) (snapshot (run acts initialState))).
Proof.
  induction acts as [|a acts [[eid IH] [eid' IHs]]] using rev_ind.
  - split; exists []; constructor.
  - rewrite run_snoc, step_snapshot.
    destruct a;
      try solve [split; [exists eid; apply editingOnly_kept;
                          [intros; discriminate|discriminate|exact IH]
                        | first [ exists eid'; exact IHs
                                | exists eid; exact IH
                                | exists eid; constructor ] ] ].
    + (* the dialog's Delete button *)
      split; [|exists eid; constructor].
      rewrite step_items. unfold snapshot in IHs.
      destruct (pendingDelete (run acts initialState)) as [[itemId capturedItems]|].
      * exists eid'. now apply Forall_keep.
      * exists eid. exact IH.
    + (* startEditing *)
      split; [|exists eid'; exact IHs].
      exists itemId. rewrite step_items.
      apply Forall_map. apply Forall_forall. intros item _.
      unfold editingOnly. simpl. apply JS_eqb_eq.
Qed.

Lemma editing_absent eid (l : list GroceryItem) :
  Forall (editingOnly eid) l -> ~ In eid (List.map id l) -> filter isEditing l = [].
Proof.
  induction l as [|item l IH]; simpl; intros HF Hn; [reflexivity|].
  inversion HF as [|? ? Hi Hl]; subst.
  destruct (isEditing item) eqn:E.
  - exfalso. apply Hn. left. now apply Hi.
  - apply IH; [exact Hl|]. intros Hin. apply Hn. now right.
Qed.

Lemma editing_at_most_one eid (l : list GroceryItem) :
  NoDup (List.map id l) -> Forall (editingOnly eid) l ->
  length (filter isEditing l) <= 1.
Proof.
  induction l as [|item l IH]; simpl; intros Hnd HF; [lia|].
  inversion Hnd as [|? ? Hnew Hrest]; inversion HF as [|? ? Hi Hl]; subst.
  destruct (isEditing item) eqn:E.
  - rewrite <- (Hi E) in Hl.
    rewrite (editing_absent (id item) l Hl Hnew). simpl. lia.
  - now apply IH.
Qed.

Lemma startEditing_count itemId s :
  editingCount (fst (startEditing itemId s))
  = length (filter (fun i => JS.eqb i itemId) (ids s)).
Proof.
  unfold editingCount, ids. rewrite startEditing_items.
  induction (items s) as [|item l IH]; simpl; [reflexivity|].
  destruct (JS.eqb (id item) itemId); simpl; now rewrite IH.
Qed.

Lemma count_absent itemId (l : list str) :
  ~ In itemId l -> filter (fun i => JS.eqb i itemId) l = [].
Proof.
  induction l as [|x l IH]; simpl; intros H; [reflexivity|].
  destruct (JS.eqb x itemId) eqn:E.
  - apply JS_eqb_eq in E. exfalso. apply H. now left.
  - apply IH. intros Hin. apply H. now right.
Qed.

Lemma count_present itemId (l : list str) :
  NoDup l -> In itemId l -> length (filter (fun i => JS.eqb i itemId) l) = 1.
Proof.
  induction l as [|x l IH]; simpl; intros Hnd Hin; [contradiction|].
  inversion Hnd as [|? ? Hnew Hrest]; subst.
  destruct (JS.eqb x itemId) eqn:E.
  - apply JS_eqb_eq in E. subst x. now rewrite count_absent.
  - apply IH; [exact Hrest|]. destruct Hin as [Hx|Hin]; [|exact Hin].
    apply JS_eqb_neq in E. contradiction.
Qed.

(** C6, as the code has it.  After every run all the items being edited
    carry one and the same id, so at most one item is being edited
    whenever the ids of the collection are pairwise distinct, as they are
    in a run whose [addItem] calls read pairwise distinct clock values.
    [startEditing] sets [isEditing] to true on the items whose id is the
    given one and to false on every other item, and changes no other
    field; with pairwise distinct ids and the id present, exactly one item
    is being edited afterwards. *)
Theorem editing_items_share_one_id :
  (forall acts, exists eid,
     Forall (editingOnly eid) (items (run acts initialState))) /\
  (forall acts, NoDup (ids (run acts initialState)) ->
     editingCount (run acts initialState) <= 1) /\
  (forall acts, NoDup (clockReadings acts) ->
     editingCount (run acts initialState) <= 1) /\
  (forall s itemId,
     List.map isEditing (items (fst (startEditing itemId s)))
       = List.map (fun item => JS.eqb (id item) itemId) (items s) /\
     List.map offEditing (items (fst (startEditing itemId s)))
       = List.map offEditing (items s)) /\
  (forall s itemId, NoDup (ids s) -> In itemId (ids s) ->
     editingCount (fst (startEditing itemId s)) = 1).
Proof.
  split; [intros acts; apply editingOnly_run|].
  assert (H : forall acts, NoDup (ids (run acts initialState)) ->
              editingCount (run acts initialState) <= 1).
  { intros acts Hnd. destruct (editingOnly_run acts) as [[eid He] _].
    now apply editing_at_most_one with (eid := eid). }
  split; [exact H|]. split.
  { intros acts Hnd. apply H. now apply distinct_readings_distinct_ids. }
  split.
  - intros s itemId. rewrite startEditing_items, !map_map. split; reflexivity.
  - intros s itemId Hnd Hin. rewrite startEditing_count. now apply count_present.
Qed.

Lemma editing_items_share_one_id_witness :
  let added := [OnChangeInputText (JS.lit "Milk"); AddItem 1000;
                OnChangeInputText (JS.lit "Eggs"); AddItem 1001] in
  let acts := added ++ [StartEditing (JS.lit "1000")] in
  NoDup (clockReadings acts) /\
  NoDup (ids (run added initialState)) /\
  In (JS.lit "1001") (ids (run acts initialState)) /\
  editingCount (run added initialState) <= 1 /\
  editingCount (run acts initialState) <= 1 /\
  editingCount (fst (startEditing (JS.lit "1001") (run acts initialState))) = 1.
Proof.
  intros added acts.
  assert (H1 : NoDup (clockReadings acts)).
  { vm_compute. repeat constructor; simpl; intros F;
      repeat (destruct F as [F|F]; try discriminate F); exact F. }
  assert (H2 : NoDup (ids (run added initialState))).
  { vm_compute. repeat constructor; simpl; intros F;
      repeat (destruct F as [F|F]; try discriminate F); exact F. }
  assert (H3 : In (JS.lit "1001") (ids (run acts initialState))).
  { vm_compute. right. left. reflexivity. }
  destruct editing_items_share_one_id as (_ & Hids & Hclock & _ & Hstart).
  split; [exact H1|]. split; [exact H2|]. split; [exact H3|].
  split; [exact (Hids added H2)|].
  split; [exact (Hclock acts H1)|].
  exact (Hstart (run acts initialState) (JS.lit "1001") H2 H3).
Defined.

(** C6 as written fails: two items added at the same clock reading share
    their id, and [startEditing] with that id marks both. *)
Lemma twins_are_both_editing : ~ singleEditing_as_claimed.
Proof.
  intros H.
  assert (R : reachable twinsEdited) by (eexists; reflexivity).
  specialize (H _ R).
  assert (E : editingCount twinsEdited = 2) by (vm_compute; reflexivity).
  lia.
Qed.

(** * Accepting a suggestion *)



(** * More on the parser: lines and white space *)

Lemma splitLF_cons (s : str) : exists l ls, JS.splitLF s = l :: ls.
Proof.
  induction s as [|c r (l & ls & E)]; simpl; [eauto|].
  destruct (N.eqb c JS.LF); [eauto|]. rewrite E. eauto.
Qed.

(** A text without a line feed is its own single line. *)
Lemma splitLF_one_line (s : str) : ~ In JS.LF s -> JS.splitLF s = [s].
Proof.
  induction s as [|c r IH]; simpl; intros H; [reflexivity|].
  destruct (N.eqb_spec c JS.LF) as [E|E]; [exfalso; apply H; now left|].
  rewrite IH; [reflexivity|]. intros Hin. apply H. now right.
Qed.

(** Splitting distributes over a line feed. *)
Lemma splitLF_app (a b : str) :
  JS.splitLF (a ++ JS.LF :: b) = JS.splitLF a ++ JS.splitLF b.
Proof.
  induction a as [|c a IH]; [reflexivity|].
  simpl. destruct (N.eqb c JS.LF); [now rewrite IH|].
  rewrite IH. destruct (splitLF_cons a) as (l & ls & ->). reflexivity.
Qed.

Lemma splitLF_lines_no_LF (s line : str) :
  In line (JS.splitLF s) -> ~ In JS.LF line.
Proof.
  revert line. induction s as [|c r IH]; simpl; intros line Hin.
  - destruct Hin as [<-|[]]. intros [].
  - destruct (N.eqb_spec c JS.LF) as [E|E].
    + destruct Hin as [<-|Hin]; [intros []|now apply IH].
    + destruct (splitLF_cons r) as (l & ls & Er). rewrite Er in Hin, IH.
      destruct Hin as [<-|Hin].
      * intros [Hc|Hl]; [congruence|]. apply (IH l); [now left|exact Hl].
      * apply IH. now right.
Qed.

Lemma suggestionLines_app (a b : str) :
  suggestionLines (a ++ JS.LF :: b) = suggestionLines a ++ suggestionLines b.
Proof. unfold suggestionLines. now rewrite splitLF_app, filter_app. Qed.

Lemma suggestionLines_one_line (s : str) :
  ~ In JS.LF s -> suggestionLines s = if isBlank s then [] else [s].
Proof.
  intros H. unfold suggestionLines. rewrite (splitLF_one_line s H). simpl.
  now destruct (isBlank s).
Qed.

(** The parser reads its text only through the lines it keeps. *)
Lemma parseSuggestion_lines (s t : str) :
  suggestionLines s = suggestionLines t -> parseSuggestion s = parseSuggestion t.
Proof. unfold parseSuggestion. now intros ->. Qed.

Lemma trimStart_suffix (s : str) : exists p, s = p ++ JS.trimStart s.
Proof.
  induction s as [|c r [p E]]; [now exists []|]. simpl.
  destruct (JS.isWhiteSpace c); [|now exists []].
  exists (c :: p). simpl. now rewrite <- E.
Qed.

Lemma trimStart_empty_or_inked (s : str) :
  JS.trimStart s = [] \/ inked (JS.trimStart s).
Proof.
  induction s as [|c r IH]; simpl; [now left|].
  destruct (JS.isWhiteSpace c) eqn:E; [exact IH|]. right. exact E.
Qed.

(** What [trim] returns is empty or has no white space at either end. *)
Lemma trim_empty_or_tight (s : str) : JS.trim s = [] \/ tight (JS.trim s).
Proof.
  unfold JS.trim, JS.trimEnd.
  destruct (trimStart_empty_or_inked (rev (JS.trimStart s))) as [E|Hy].
  - left. now rewrite E.
  - right. split; [|now rewrite rev_involutive].
    destruct (trimStart_suffix (rev (JS.trimStart s))) as [p Ep].
    apply (f_equal (@rev N)) in Ep. rewrite rev_involutive, rev_app_distr in Ep.
    destruct (trimStart_empty_or_inked s) as [E|Hx].
    + rewrite E in Hy. simpl in Hy. contradiction.
    + rewrite Ep in Hx.
      destruct (rev (JS.trimStart (rev (JS.trimStart s)))) as [|c t] eqn:Et.
      * apply (f_equal (@rev N)) in Et. rewrite rev_involutive in Et.
        rewrite Et in Hy. contradiction.
      * exact Hx.
Qed.

Lemma trim_idempotent (s : str) : JS.trim (JS.trim s) = JS.trim s.
Proof.
  destruct (trim_empty_or_tight s) as [E|H]; [now rewrite E|now apply tight_trim].
Qed.

Lemma trimStart_In (x : N) (s : str) : In x (JS.trimStart s) -> In x s.
Proof.
  destruct (trimStart_suffix s) as [p E]. intros H. rewrite E.
  apply in_or_app. now right.
Qed.

Lemma trim_In (x : N) (s : str) : In x (JS.trim s) -> In x s.
Proof.
  unfold JS.trim, JS.trimEnd. intros H. apply in_rev in H.
  apply trimStart_In in H. apply in_rev in H. now apply trimStart_In.
Qed.

Lemma join_In (x : N) (sep : str) (a : list str) :
  In x (JS.join sep a) -> In x sep \/ exists line, In line a /\ In x line.
Proof.
  induction a as [|l r IH]; [intros []|].
  destruct r as [|l' r'].
  - simpl. intros H. right. exists l. split; [now left|exact H].
  - change (JS.join sep (l :: l' :: r')) with (l ++ sep ++ JS.join sep (l' :: r')).
    intros H. apply in_app_or in H as [H|H].
    + right. exists l. split; [now left|exact H].
    + apply in_app_or in H as [H|H]; [now left|].
      destruct (IH H) as [Hs|(line & Hl & Hx)]; [now left|].
      right. exists line. split; [now right|exact Hx].
Qed.

Lemma suggestionLines_no_LF (text line : str) :
  In line (suggestionLines text) -> ~ In JS.LF line.
Proof.
  unfold suggestionLines. intros H. apply filter_In in H as [H _].
  now apply splitLF_lines_no_LF with (s := text).
Qed.

Lemma parseSuggestion_unfold (text : str) :
  parseSuggestion text
  = (option_map JS.trim (hd_error (suggestionLines text)),
     JS.trim (JS.join [JS.SP] (tl (suggestionLines text)))).
Proof.
  unfold parseSuggestion.
  destruct (suggestionLines text) as [|l [|l' ls]]; reflexivity.
Qed.

(** The shape of what the parser returns: an alternative is not empty, has
    no white space at either end and no line feed; the reason has no line
    feed and is empty or has no white space at either end. *)
Theorem parseSuggestion_shape (text : str) :
  (forall alt, fst (parseSuggestion text) = Some alt ->
     tight alt /\ JS.trim alt = alt /\ ~ In JS.LF alt) /\
  (snd (parseSuggestion text) = [] \/ tight (snd (parseSuggestion text))) /\
  ~ In JS.LF (snd (parseSuggestion text)).
Proof.
  rewrite (parseSuggestion_unfold text). simpl. split; [|split].
  - intros alt Halt.
    destruct (suggestionLines text) as [|l ls] eqn:E; [discriminate|].
    simpl in Halt. injection Halt as <-.
    assert (Hne : JS.trim l <> []).
    { apply suggestionLines_not_blank with (suggestion := text). rewrite E. now left. }
    destruct (trim_empty_or_tight l) as [E0|Ht]; [contradiction|].
    split; [exact Ht|]. split; [apply trim_idempotent|].
    intros Hin. apply trim_In in Hin.
    apply (suggestionLines_no_LF text l); [rewrite E; now left|exact Hin].
  - apply trim_empty_or_tight.
  - intros Hin. apply trim_In in Hin. apply join_In in Hin.
    destruct Hin as [[Hs|[]]|(line & Hl & Hx)]; [discriminate Hs|].
    apply (suggestionLines_no_LF text line); [|exact Hx].
    destruct (suggestionLines text); [destruct Hl|now right].
Qed.

Lemma parseSuggestion_shape_witness :
  let text := almondButterText in
  fst (parseSuggestion text) = Some (JS.lit "Almond butter") /\
  tight (JS.lit "Almond butter") /\
  ~ In JS.LF (JS.lit "Almond butter").
Proof.
  intros text.
  assert (H : fst (parseSuggestion text) = Some (JS.lit "Almond butter"))
    by (vm_compute; reflexivity).
  destruct (parseSuggestion_shape text) as (Halt & _ & _).
  destruct (Halt _ H) as (Ht & _ & Hn).
  split; [exact H|]. split; [exact Ht|exact Hn].
Defined.

(** The format the request asks for: an alternative on the first line and
    a reason on the second.  For two lines that are not blank the parser
    returns the first trimmed and the second trimmed; for a single line
    that is not blank it returns the line trimmed and an empty reason. *)
Theorem parseSuggestion_two_lines (a b : str) :
  ~ In JS.LF a -> JS.trim a <> [] ->
  parseSuggestion a = (Some (JS.trim a), []) /\
  (~ In JS.LF b -> JS.trim b <> [] ->
   parseSuggestion (a ++ JS.LF :: b) = (Some (JS.trim a), JS.trim b)).
Proof.
  intros Ha Hna.
  assert (Ea : suggestionLines a = [a]).
  { rewrite (suggestionLines_one_line a Ha). unfold isBlank.
    apply JS_eqb_neq in Hna. now rewrite Hna. }
  split.
  - rewrite parseSuggestion_unfold, Ea. reflexivity.
  - intros Hb Hnb.
    assert (Eb : suggestionLines b = [b]).
    { rewrite (suggestionLines_one_line b Hb). unfold isBlank.
      apply JS_eqb_neq in Hnb. now rewrite Hnb. }
    rewrite parseSuggestion_unfold, suggestionLines_app, Ea, Eb. reflexivity.
Qed.

Lemma parseSuggestion_two_lines_witness :
  let a := JS.lit "  Oat milk " in
  let b := JS.lit " It has less sugar.  " in
  parseSuggestion a = (Some (JS.lit "Oat milk"), []) /\
  parseSuggestion (a ++ JS.LF :: b)
    = (Some (JS.lit "Oat milk"), JS.lit "It has less sugar.").
Proof.
  intros a b.
  assert (Ha : ~ In JS.LF a) by (vm_compute; intuition discriminate).
  assert (Hb : ~ In JS.LF b) by (vm_compute; intuition discriminate).
  assert (Hna : JS.trim a <> []) by (vm_compute; discriminate).
  assert (Hnb : JS.trim b <> []) by (vm_compute; discriminate).
  destruct (parseSuggestion_two_lines a b Ha Hna) as [H1 H2].
  split; [exact H1|exact (H2 Hb Hnb)].
Defined.

(** Blank lines do not count, wherever they stand: a blank line before,
    between or after the other lines leaves the result as it is. *)
Theorem parseSuggestion_skips_blank_lines (a w b : str) :
  ~ In JS.LF w -> isBlank w = true ->
  parseSuggestion (w ++ JS.LF :: b) = parseSuggestion b /\
  parseSuggestion (a ++ JS.LF :: w) = parseSuggestion a /\
  parseSuggestion (a ++ JS.LF :: w ++ JS.LF :: b) = parseSuggestion (a ++ JS.LF :: b).
Proof.
  intros Hw Hb.
  assert (Ew : suggestionLines w = []).
  { rewrite (suggestionLines_one_line w Hw). now rewrite Hb. }
  repeat split; apply parseSuggestion_lines;
    rewrite ?suggestionLines_app, ?Ew, ?app_nil_r; reflexivity.
Qed.

Lemma parseSuggestion_skips_blank_lines_witness :
  let a := JS.lit "Oat milk" in
  let w := JS.lit "   " in
  let b := JS.lit "It has less sugar." in
  parseSuggestion (a ++ JS.LF :: w ++ JS.LF :: b) = parseSuggestion (a ++ JS.LF :: b).
Proof.
  intros a w b.
  assert (Hw : ~ In JS.LF w) by (vm_compute; intuition discriminate).
  exact (proj2 (proj2 (parseSuggestion_skips_blank_lines a w b Hw eq_refl))).
Defined.

(** * What each action does to the rest of the state *)

Lemma step_pendingDelete a s :
  pendingDelete (fst (step a s)) =
  match a with
  | DeleteItem itemId => Some (itemId, items s)
  | ConfirmDelete | CancelDelete => None
  | _ => pendingDelete s
  end.
Proof.
  destruct a; simpl step; try reflexivity.
  - unfold addItem. destruct (JS.eqb (JS.trim (inputText s)) []); [reflexivity|].
    rewrite !andThen_fst, getItemImage_pendingDelete, getHealthSuggestion_pendingDelete.
    reflexivity.
  - unfold confirmDelete.
    destruct (pendingDelete s) as [[itemId capturedItems]|] eqn:E;
      simpl; rewrite ?E; reflexivity.
  - unfold saveEdit. now destruct (JS.eqb (JS.trim (editText s)) []).
  - unfold replaceFoodItem, replaceFoodItem_from.
    destruct (find _ (items s)) as [item|]; [|reflexivity].
    destruct (healthSuggestion item) as [newName|]; [|reflexivity].
    destruct (JS.truthy newName); [|reflexivity].
    rewrite andThen_fst, getItemImage_pendingDelete. reflexivity.
  - now destruct (suggestion_completed_rest itemId r s) as (_ & _ & _ & _ & _ & -> & _).
  - unfold getApiKeys_loaded. rewrite !andThen_fst.
    destruct (negb (truthyStr storedApiKey) || negb (truthyStr storedPexelsKey));
      destruct (configured storedPexelsKey); destruct (configured storedApiKey);
      reflexivity.
  - unfold saveApiKeys.
    destruct (JS.eqb (JS.trim apiKeyInput) []);
      destruct (JS.eqb (JS.trim pexelsApiKeyInput) []); reflexivity.
  - unfold saveApiKeys.
    destruct (JS.eqb (JS.trim apiKeyInput) []);
      destruct (JS.eqb (JS.trim pexelsApiKeyInput) []);
      destruct healthStored; destruct pexelsStored; reflexivity.
Qed.

Lemma getHealthSuggestion_apiKey itemId itemName s :
  apiKey (fst (getHealthSuggestion itemId itemName s)) = apiKey s.
Proof. unfold getHealthSuggestion. now destruct (configured (apiKey s)). Qed.

Lemma getItemImage_apiKey itemId itemName s :
  apiKey (fst (getItemImage itemId itemName s)) = apiKey s.
Proof. unfold getItemImage. now destruct (configured (pexelsApiKey s)). Qed.

Lemma getItemImage_pexelsApiKey itemId itemName s :
  pexelsApiKey (fst (getItemImage itemId itemName s)) = pexelsApiKey s.
Proof. unfold getItemImage. now destruct (configured (pexelsApiKey s)). Qed.

(** The stored suggestion key after one action: only loading the keys and
    saving the dialog write it, and only with a key that is not blank. *)
Lemma step_apiKey a s :
  apiKey (fst (step a s)) =
  match a with
  | ApiKeysLoaded storedApiKey _ =>
      match configured storedApiKey with
      | Some k => Some k
      | None => apiKey s
      end
  | SaveApiKeys apiKeyInput _ =>
      if JS.eqb (JS.trim apiKeyInput) [] then apiKey s else Some apiKeyInput
  | SaveApiKeysStorage apiKeyInput _ healthStored _ =>
      if JS.eqb (JS.trim apiKeyInput) [] || negb healthStored then apiKey s
      else Some apiKeyInput
  | _ => apiKey s
  end.
Proof.
  destruct a; simpl step; try reflexivity.
  - unfold addItem. destruct (JS.eqb (JS.trim (inputText s)) []); [reflexivity|].
    rewrite !andThen_fst, getItemImage_apiKey, getHealthSuggestion_apiKey.
    reflexivity.
  - unfold confirmDelete. now destruct (pendingDelete s) as [[itemId capturedItems]|].
  - unfold saveEdit. now destruct (JS.eqb (JS.trim (editText s)) []).
  - unfold replaceFoodItem, replaceFoodItem_from.
    destruct (find _ (items s)) as [item|]; [|reflexivity].
    destruct (healthSuggestion item) as [newName|]; [|reflexivity].
    destruct (JS.truthy newName); [|reflexivity].
    rewrite andThen_fst, getItemImage_apiKey. reflexivity.
  - now destruct (suggestion_completed_rest itemId r s) as (_ & _ & -> & _).
  - unfold getApiKeys_loaded. rewrite !andThen_fst.
    destruct (negb (truthyStr storedApiKey) || negb (truthyStr storedPexelsKey));
      destruct (configured storedPexelsKey); destruct (configured storedApiKey);
      reflexivity.
  - unfold saveApiKeys.
    destruct (JS.eqb (JS.trim apiKeyInput) []);
      destruct (JS.eqb (JS.trim pexelsApiKeyInput) []); reflexivity.
  - unfold saveApiKeys.
    destruct (JS.eqb (JS.trim apiKeyInput) []);
      destruct (JS.eqb (JS.trim pexelsApiKeyInput) []);
      destruct healthStored; destruct pexelsStored; reflexivity.
Qed.

Lemma step_pexelsApiKey a s :
  pexelsApiKey (fst (step a s)) =
  match a with
  | ApiKeysLoaded _ storedPexelsKey =>
      match configured storedPexelsKey with
      | Some k => Some k
      | None => pexelsApiKey s
      end
  | SaveApiKeys _ pexelsApiKeyInput =>
      if JS.eqb (JS.trim pexelsApiKeyInput) [] then pexelsApiKey s
      else Some pexelsApiKeyInput
  | SaveApiKeysStorage apiKeyInput pexelsApiKeyInput healthStored pexelsStored =>
      if JS.eqb (JS.trim pexelsApiKeyInput) [] || negb pexelsStored
         || negb (JS.eqb (JS.trim apiKeyInput) []) && negb healthStored
      then pexelsApiKey s
      else Some pexelsApiKeyInput
  | _ => pexelsApiKey s
  end.
Proof.
  destruct a; simpl step; try reflexivity.
  - unfold addItem. destruct (JS.eqb (JS.trim (inputText s)) []); [reflexivity|].
    rewrite !andThen_fst, getItemImage_pexelsApiKey, getHealthSuggestion_pexelsApiKey.
    reflexivity.
  - unfold confirmDelete. now destruct (pendingDelete s) as [[itemId capturedItems]|].
  - unfold saveEdit. now destruct (JS.eqb (JS.trim (editText s)) []).
  - unfold replaceFoodItem, replaceFoodItem_from.
    destruct (find _ (items s)) as [item|]; [|reflexivity].
    destruct (healthSuggestion item) as [newName|]; [|reflexivity].
    destruct (JS.truthy newName); [|reflexivity].
    rewrite andThen_fst, getItemImage_pexelsApiKey. reflexivity.
  - now destruct (suggestion_completed_rest itemId r s) as (_ & _ & _ & -> & _).
  - unfold getApiKeys_loaded. rewrite !andThen_fst.
    destruct (negb (truthyStr storedApiKey) || negb (truthyStr storedPexelsKey));
      destruct (configured storedPexelsKey); destruct (configured storedApiKey);
      reflexivity.
  - unfold saveApiKeys.
    destruct (JS.eqb (JS.trim apiKeyInput) []);
      destruct (JS.eqb (JS.trim pexelsApiKeyInput) []); reflexivity.
  - unfold saveApiKeys.
    destruct (JS.eqb (JS.trim apiKeyInput) []);
      destruct (JS.eqb (JS.trim pexelsApiKeyInput) []);
      destruct healthStored; destruct pexelsStored; reflexivity.
Qed.

Lemma configured_Some k key : configured k = Some key -> k = Some key /\ JS.truthy key = true.
Proof.
  destruct k as [k'|]; simpl; [|discriminate].
  destruct (JS.truthy k') eqn:E; [|discriminate]. intros [= <-]. auto.
Qed.

Lemma configured_idem k : configured (configured k) = configured k.
Proof.
  destruct k as [k'|]; simpl; [|reflexivity].
  destruct (JS.truthy k') eqn:E; simpl; [now rewrite E|reflexivity].
Qed.

Lemma trim_not_blank_truthy (t : str) : JS.eqb (JS.trim t) [] = false -> JS.truthy t = true.
Proof. destruct t; [discriminate|reflexivity]. Qed.

(** A key, once configured, stays configured. *)
Lemma apiKey_stays a s :
  configured (apiKey s) <> None -> configured (apiKey (fst (step a s))) <> None.
Proof.
  intros H. rewrite step_apiKey. destruct a; try exact H.
  - destruct (configured storedApiKey) as [k|] eqn:E; [|exact H].
    rewrite <- E, configured_idem, E. discriminate.
  - destruct (JS.eqb (JS.trim apiKeyInput) []) eqn:E; [exact H|].
    simpl. now rewrite (trim_not_blank_truthy _ E).
  - destruct (JS.eqb (JS.trim apiKeyInput) []) eqn:E; [exact H|].
    destruct healthStored; [|exact H].
    simpl. now rewrite (trim_not_blank_truthy _ E).
Qed.

Lemma pexelsApiKey_stays a s :
  configured (pexelsApiKey s) <> None ->
  configured (pexelsApiKey (fst (step a s))) <> None.
Proof.
  intros H. rewrite step_pexelsApiKey. destruct a; try exact H.
  - destruct (configured storedPexelsKey) as [k|] eqn:E; [|exact H].
    rewrite <- E, configured_idem, E. discriminate.
  - destruct (JS.eqb (JS.trim pexelsApiKeyInput) []) eqn:E; [exact H|].
    simpl. now rewrite (trim_not_blank_truthy _ E).
  - destruct (JS.eqb (JS.trim pexelsApiKeyInput) []) eqn:E; [exact H|].
    destruct (_ || _ || _); [exact H|].
    simpl. now rewrite (trim_not_blank_truthy _ E).
Qed.

(** A stored key is never the empty string. *)
Lemma stored_keys_truthy acts :
  configured (apiKey (run acts initialState)) = apiKey (run acts initialState) /\
  configured (pexelsApiKey (run acts initialState)) = pexelsApiKey (run acts initialState).
Proof.
  induction acts as [|a acts [IH1 IH2]] using rev_ind; [split; reflexivity|].
  rewrite run_snoc, step_apiKey, step_pexelsApiKey.
  destruct a; try (split; assumption); split; try assumption.
  - destruct (configured storedApiKey) as [k|] eqn:E; [|exact IH1].
    now rewrite <- E, configured_idem.
  - destruct (configured storedPexelsKey) as [k|] eqn:E; [|exact IH2].
    now rewrite <- E, configured_idem.
  - destruct (JS.eqb (JS.trim apiKeyInput) []) eqn:E; [exact IH1|].
    simpl. now rewrite (trim_not_blank_truthy _ E).
  - destruct (JS.eqb (JS.trim pexelsApiKeyInput) []) eqn:E; [exact IH2|].
    simpl. now rewrite (trim_not_blank_truthy _ E).
  - destruct (JS.eqb (JS.trim apiKeyInput) []) eqn:E; [exact IH1|].
    destruct healthStored; [|exact IH1].
    simpl. now rewrite (trim_not_blank_truthy _ E).
  - destruct (JS.eqb (JS.trim pexelsApiKeyInput) []) eqn:E; [exact IH2|].
    destruct (_ || _ || _); [exact IH2|].
    simpl. now rewrite (trim_not_blank_truthy _ E).
Qed.

(** The keys.  No action removes a configured key or replaces it by an
    empty one: once a key is configured it stays configured after every
    action, and the key held after a run is never the empty string. *)
Theorem keys_are_kept :
  (forall a s, configured (apiKey s) <> None ->
     configured (apiKey (fst (step a s))) <> None) /\
  (forall a s, configured (pexelsApiKey s) <> None ->
     configured (pexelsApiKey (fst (step a s))) <> None) /\
  (forall acts,
     apiKey (run acts initialState) <> Some [] /\
     pexelsApiKey (run acts initialState) <> Some []).
Proof.
  split; [exact apiKey_stays|]. split; [exact pexelsApiKey_stays|].
  intros acts. destruct (stored_keys_truthy acts) as [H1 H2].
  split; intros E; [rewrite E in H1|rewrite E in H2]; discriminate.
Qed.

Lemma keys_are_kept_witness :
  let s := run keysStored initialState in
  configured (apiKey s) <> None /\
  configured (pexelsApiKey s) <> None /\
  configured (apiKey (fst (step (SaveApiKeys [] (JS.lit "px2")) s))) <> None /\
  configured (pexelsApiKey (fst (step (SaveApiKeys (JS.lit "sk2") []) s))) <> None.
Proof.
  intros s.
  assert (H1 : configured (apiKey s) <> None) by (vm_compute; discriminate).
  assert (H2 : configured (pexelsApiKey s) <> None) by (vm_compute; discriminate).
  destruct keys_are_kept as (Ha & Hp & _).
  split; [exact H1|]. split; [exact H2|].
  split; [exact (Ha _ s H1)|exact (Hp _ s H2)].
Defined.

(** * Properties kept item by item, with what the state provides *)

(** As [itemwise_step_items], with each update required only where the
    action and the state before it can apply it. *)
Lemma step_items_Forall (P : GroceryItem -> Prop) a s :
  Forall P (items s) ->
  (a = ConfirmDelete -> Forall P (snapshot s)) ->
  (forall now, a = AddItem now -> JS.trim (inputText s) <> [] ->
     P (newItem (JS.toString now) (JS.trim (inputText s)))) ->
  (configured (pexelsApiKey s) <> None ->
     forall item, P item -> P (markLoadingImage item)) ->
  (configured (apiKey s) <> None ->
     forall item, P item -> P (markLoadingSuggestion item)) ->
  (forall url item, P item -> P (imageLoaded url item)) ->
  (forall item, P item -> P (imageNotLoaded item)) ->
  (forall item, P item -> P (suggestionNotLoaded item)) ->
  (forall found newName item,
     In found (items s) -> healthSuggestion found = Some newName ->
     JS.truthy newName = true -> P item -> P (replaced newName item)) ->
  (forall item, P item -> P (dismissed item)) ->
  (forall itemId item, a = StartEditing itemId -> P item ->
     P (withEditing (JS.eqb (id item) itemId) item)) ->
  (JS.trim (editText s) <> [] ->
     forall item, P item -> P (renamed (JS.trim (editText s)) item)) ->
  (forall text item, JS.truthy text = true -> P item ->
     P (suggestionLoaded (fst (parseSuggestion text)) (snd (parseSuggestion text)) item)) ->
  Forall P (items (fst (step a s))).
Proof.
  intros H Hsnap Hnew Hmi Hms Hil Hin Hsn Hrep Hdis Hed Hren Hsl.
  assert (HmarkI : forall itemId l, Forall P l ->
            Forall P (match configured (pexelsApiKey s) with
                      | Some _ => patch itemId markLoadingImage l
                      | None => l
                      end)).
  { intros itemId l Hl. destruct (configured (pexelsApiKey s)) eqn:E; [|exact Hl].
    apply Forall_patch; [|exact Hl]. apply Hmi. discriminate. }
  assert (HmarkS : forall itemId l, Forall P l ->
            Forall P (match configured (apiKey s) with
                      | Some _ => patch itemId markLoadingSuggestion l
                      | None => l
                      end)).
  { intros itemId l Hl. destruct (configured (apiKey s)) eqn:E; [|exact Hl].
    apply Forall_patch; [|exact Hl]. apply Hms. discriminate. }
  rewrite step_items. destruct a; auto.
  - rewrite addItem_items.
    destruct (JS.eqb (JS.trim (inputText s)) []) eqn:Eb; [exact H|]. cbv zeta.
    apply HmarkI, HmarkS. apply Forall_app. split; [exact H|].
    constructor; [|constructor]. apply Hnew; [reflexivity|]. now apply JS_eqb_neq.
  - specialize (Hsnap eq_refl). unfold snapshot in Hsnap.
    destruct (pendingDelete s) as [[itemId capturedItems]|]; auto using Forall_keep.
  - apply Forall_map. apply Forall_impl with (2 := H). intros item Hi.
    now apply Hed.
  - rewrite saveEdit_items.
    destruct (JS.eqb (JS.trim (editText s)) []) eqn:Eb; [exact H|].
    apply Forall_patch; [|exact H]. apply Hren. now apply JS_eqb_neq.
  - rewrite replaceFoodItem_items.
    destruct (find _ (items s)) as [found|] eqn:Ef; [|exact H].
    destruct (healthSuggestion found) as [newName|] eqn:Eh; [|exact H].
    destruct (JS.truthy newName) eqn:Et; [|exact H]. cbv zeta.
    apply HmarkI. apply Forall_map. apply Forall_impl with (2 := H). intros i Hi.
    destruct (JS.eqb (id i) itemId && truthyStr (healthSuggestion i)); [|exact Hi].
    apply (Hrep found newName i); auto. now apply find_some in Ef.
  - now apply Forall_patch.
  - destruct r as [|[text|]]; simpl; auto using Forall_patch.
    destruct (JS.truthy text) eqn:Et; [|exact H].
    apply Forall_patch; [|exact H]. intros item Hi. now apply Hsl.
  - apply Forall_patch; [|exact H]. intros item Hi.
    destruct r as [|[url|]]; simpl; auto.
    destruct (JS.truthy url); auto.
Qed.

Lemma parseSuggestion_alternative_tight (text alt : str) :
  fst (parseSuggestion text) = Some alt -> tight alt.
Proof.
  rewrite parseSuggestion_unfold. simpl.
  destruct (suggestionLines text) as [|l ls] eqn:E; [discriminate|].
  simpl. intros [= <-].
  destruct (trim_empty_or_tight l) as [E0|Ht]; [|exact Ht].
  exfalso. apply (suggestionLines_not_blank text l); [rewrite E; now left|exact E0].
Qed.

Lemma trim_nonempty_tight (t : str) : JS.trim t <> [] -> tight (JS.trim t).
Proof. intros H. destruct (trim_empty_or_tight t); [contradiction|assumption]. Qed.

Lemma textsAreTight_step a s :
  everyItem textsAreTight s -> everyItem textsAreTight (fst (step a s)).
Proof.
  intros [H Hs]. split.
  - apply step_items_Forall; auto;
      try (unfold textsAreTight; simpl; now auto).
    + intros now _ Hne. split; simpl; [now apply trim_nonempty_tight|discriminate].
    + intros found newName item Hin Hh _ [_ Hi]. split; simpl; [|discriminate].
      apply (proj1 (Forall_forall _ _) H) in Hin. now apply (proj2 Hin).
    + intros Hne item [_ Hi]. split; simpl; [now apply trim_nonempty_tight|exact Hi].
    + intros text item _ [Hn _]. split; simpl; [exact Hn|].
      intros h Hh. now apply parseSuggestion_alternative_tight with (text := text).
  - rewrite step_snapshot. destruct a; auto.
Qed.

Lemma textsAreTight_run acts : everyItem textsAreTight (run acts initialState).
Proof.
  induction acts as [|a acts IH] using rev_ind; [split; constructor|].
  rewrite run_snoc. now apply textsAreTight_step.
Qed.

(** Names.  After every run the name of every item is not empty and has
    no white space at either end, and so has every stored suggestion:
    names only come from the trimmed input, the trimmed edit text and an
    accepted suggestion, and each of the three is refused when blank. *)
Theorem names_are_tight (acts : list Action) :
  Forall (fun item =>
            name item <> [] /\ JS.trim (name item) = name item /\
            forall h, healthSuggestion item = Some h ->
                      h <> [] /\ JS.trim h = h)
         (items (run acts initialState)).
Proof.
  destruct (textsAreTight_run acts) as [H _].
  apply Forall_impl with (2 := H). intros item [Hn Hh].
  assert (Hne : forall t, tight t -> t <> [] /\ JS.trim t = t).
  { intros t Ht. split; [|now apply tight_trim].
    intros E. rewrite E in Ht. now destruct Ht. }
  destruct (Hne _ Hn) as [H1 H2]. split; [exact H1|]. split; [exact H2|].
  intros h Eh. apply Hne. now apply Hh.
Qed.

Lemma names_are_tight_witness :
  let item := hd (newItem [] []) (items almondButterShown) in
  healthSuggestion item = Some (JS.lit "Almond butter") /\
  name item <> [] /\ JS.trim (name item) = name item /\
  JS.trim (JS.lit "Almond butter") = JS.lit "Almond butter".
Proof.
  intros item.
  pose proof (names_are_tight
                (keysStored ++ addPeanutButter ++
                 [SuggestionCompleted (JS.lit "1000")
                    (SuggestionOk (Some almondButterText))])) as H.
  change (run _ initialState) with almondButterShown in H.
  assert (Hin : In item (items almondButterShown)) by (left; reflexivity).
  destruct (proj1 (Forall_forall _ _) H item Hin) as (Hn & Ht & Hh).
  split; [reflexivity|]. split; [exact Hn|]. split; [exact Ht|].
  exact (proj2 (Hh (JS.lit "Almond butter") eq_refl)).
Defined.

(** * Loading flags and keys *)

Lemma notLoadingSuggestion_step a s :
  configured (apiKey s) = None ->
  everyItem notLoadingSuggestion s ->
  everyItem notLoadingSuggestion (fst (step a s)).
Proof.
  intros Hk [H Hs]. split.
  - apply step_items_Forall; auto;
      try (unfold notLoadingSuggestion; simpl; now auto);
      try (intros Hc; contradiction).
  - rewrite step_snapshot. destruct a; auto.
Qed.

Lemma notLoadingImage_step a s :
  configured (pexelsApiKey s) = None ->
  everyItem notLoadingImage s ->
  everyItem notLoadingImage (fst (step a s)).
Proof.
  intros Hk [H Hs]. split.
  - apply step_items_Forall; auto;
      try (unfold notLoadingImage; simpl; now auto);
      try (intros Hc; contradiction).
  - rewrite step_snapshot. destruct a; auto.
Qed.

Lemma loading_needs_key_run acts :
  (configured (apiKey (run acts initialState)) = None ->
   everyItem notLoadingSuggestion (run acts initialState)) /\
  (configured (pexelsApiKey (run acts initialState)) = None ->
   everyItem notLoadingImage (run acts initialState)).
Proof.
  induction acts as [|a acts [IH1 IH2]] using rev_ind.
  - split; intros _; split; constructor.
  - rewrite run_snoc. split; intros Hk.
    + assert (Hb : configured (apiKey (run acts initialState)) = None).
      { destruct (configured (apiKey (run acts initialState))) eqn:E; [|reflexivity].
        exfalso. apply (apiKey_stays a (run acts initialState)); [|exact Hk].
        rewrite E. discriminate. }
      apply notLoadingSuggestion_step; auto.
    + assert (Hb : configured (pexelsApiKey (run acts initialState)) = None).
      { destruct (configured (pexelsApiKey (run acts initialState))) eqn:E;
          [|reflexivity].
        exfalso. apply (pexelsApiKey_stays a (run acts initialState)); [|exact Hk].
        rewrite E. discriminate. }
      apply notLoadingImage_step; auto.
Qed.

(** A loading flag is only ever set behind its key: after every run, an
    item whose [isLoadingSuggestion] is true exists only with a suggestion
    key configured, and an item whose [isLoadingImage] is true only with
    an image key configured.  Without the key no spinner is on screen. *)
Theorem loading_needs_key (acts : list Action) (item : GroceryItem) :
  In item (items (run acts initialState)) ->
  (isLoadingSuggestion item = Some true ->
   configured (apiKey (run acts initialState)) <> None) /\
  (isLoadingImage item = Some true ->
   configured (pexelsApiKey (run acts initialState)) <> None).
Proof.
  intros Hin. destruct (loading_needs_key_run acts) as [H1 H2].
  split; intros Hl Hk.
  - destruct (H1 Hk) as [H _]. apply (proj1 (Forall_forall _ _) H) in Hin.
    unfold notLoadingSuggestion in Hin. rewrite Hl in Hin. discriminate.
  - destruct (H2 Hk) as [H _]. apply (proj1 (Forall_forall _ _) H) in Hin.
    unfold notLoadingImage in Hin. rewrite Hl in Hin. discriminate.
Qed.

Lemma loading_needs_key_witness :
  let acts := keysStored ++ addPeanutButter in
  let item := hd (newItem [] []) (items (run acts initialState)) in
  In item (items (run acts initialState)) /\
  isLoadingSuggestion item = Some true /\
  isLoadingImage item = Some true /\
  configured (apiKey (run acts initialState)) <> None /\
  configured (pexelsApiKey (run acts initialState)) <> None.
Proof.
  intros acts item.
  assert (Hin : In item (items (run acts initialState))) by (left; reflexivity).
  destruct (loading_needs_key acts item Hin) as [H1 H2].
  split; [exact Hin|]. split; [reflexivity|]. split; [reflexivity|].
  split; [exact (H1 eq_refl)|exact (H2 eq_refl)].
Defined.

(** * Requests *)

Lemma addItem_effects_blank now s :
  JS.eqb (JS.trim (inputText s)) [] = true -> snd (addItem now s) = [].
Proof. intros H. unfold addItem. now rewrite H. Qed.

Lemma replaceFoodItem_effects_gen itemId s :
  snd (replaceFoodItem itemId s) =
  match find (fun i => JS.eqb (id i) itemId) (items s) with
  | Some found =>
      match healthSuggestion found with
      | Some newName =>
          if JS.truthy newName then
            match configured (pexelsApiKey s) with
            | Some key => [FetchImage itemId newName key]
            | None => []
            end
          else []
      | None => []
      end
  | None => []
  end.
Proof.
  unfold replaceFoodItem, replaceFoodItem_from.
  destruct (find _ (items s)) as [found|]; [|reflexivity].
  destruct (healthSuggestion found) as [newName|]; [|reflexivity].
  destruct (JS.truthy newName); [|reflexivity].
  rewrite andThen_snd. unfold getItemImage. simpl.
  destruct (configured (pexelsApiKey s)); reflexivity.
Qed.

Lemma truthy_not_nil (t : str) : JS.truthy t = true -> t <> [].
Proof. destruct t; [discriminate|discriminate]. Qed.

(** Requests.  A suggestion request is emitted only by [addItem], an
    image request only by [addItem] and by [replaceFoodItem]; a request
    always carries the stored key of its service, which is not empty, and
    a name that is not empty: the trimmed input for a new item, the
    accepted suggestion otherwise.  No response handler emits a request:
    nothing is retried. *)
Theorem requests_carry_key (a : Action) (s : AppState) (itemId itemName key : str) :
  (In (FetchSuggestion itemId itemName key) (snd (step a s)) ->
   (exists now, a = AddItem now /\ itemId = JS.toString now) /\
   itemName = JS.trim (inputText s) /\ itemName <> [] /\
   configured (apiKey s) = Some key /\ key <> []) /\
  (In (FetchImage itemId itemName key) (snd (step a s)) ->
   configured (pexelsApiKey s) = Some key /\ key <> [] /\ itemName <> [] /\
   ((exists now, a = AddItem now /\ itemId = JS.toString now /\
                 itemName = JS.trim (inputText s)) \/
    (a = ReplaceFoodItem itemId /\
     exists found, In found (items s) /\ id found = itemId /\
                   healthSuggestion found = Some itemName))) /\
  (forall r, filter isFetch (snd (getHealthSuggestion_completed itemId r s)) = []) /\
  (forall r, filter isFetch (snd (getItemImage_completed itemId r s)) = []).
Proof.
  assert (Hkey : forall k key0, configured k = Some key0 -> key0 <> []).
  { intros k key0 E. apply configured_Some in E as [_ E]. now apply truthy_not_nil. }
  split; [|split; [|split]].
  - intros Hin. destruct a; simpl step in Hin;
      try (simpl in Hin; now intuition discriminate).
    + destruct (JS.eqb (JS.trim (inputText s)) []) eqn:Eb.
      * rewrite (addItem_effects_blank now s Eb) in Hin. destruct Hin.
      * rewrite (addItem_effects now s Eb) in Hin.
        destruct (configured (apiKey s)) as [k|] eqn:Ek;
          destruct (configured (pexelsApiKey s)) as [k'|] eqn:Ek';
          simpl in Hin; try (now intuition discriminate).
        -- destruct Hin as [H|[H|[H|[]]]]; try discriminate H.
           injection H as <- <- <-.
           split; [eauto|]. split; [reflexivity|]. split; [now apply JS_eqb_neq|].
           split; [reflexivity|]. now apply (Hkey _ _ Ek).
        -- destruct Hin as [H|[H|[]]]; try discriminate H.
           injection H as <- <- <-.
           split; [eauto|]. split; [reflexivity|]. split; [now apply JS_eqb_neq|].
           split; [reflexivity|]. now apply (Hkey _ _ Ek).
    + unfold confirmDelete in Hin.
      destruct (pendingDelete s) as [[i c]|]; simpl in Hin; destruct Hin.
    + unfold saveEdit in Hin. destruct (JS.eqb (JS.trim (editText s)) []);
        simpl in Hin; now intuition discriminate.
    + rewrite replaceFoodItem_effects_gen in Hin.
      destruct (find _ (items s)) as [found|]; [|destruct Hin].
      destruct (healthSuggestion found) as [newName|]; [|destruct Hin].
      destruct (JS.truthy newName); [|destruct Hin].
      destruct (configured (pexelsApiKey s)); simpl in Hin;
        now intuition discriminate.
    + destruct r as [|[text|]]; simpl in Hin; try (now intuition discriminate).
      destruct (JS.truthy text); [|destruct Hin].
      destruct (parseSuggestion text). simpl in Hin. destruct Hin.
    + unfold getApiKeys_loaded in Hin. rewrite !andThen_snd in Hin.
      destruct (negb (truthyStr storedApiKey) || negb (truthyStr storedPexelsKey));
        destruct (configured storedPexelsKey); destruct (configured storedApiKey);
        simpl in Hin; destruct Hin.
    + unfold saveApiKeys in Hin.
      destruct (JS.eqb (JS.trim apiKeyInput) []);
        destruct (JS.eqb (JS.trim pexelsApiKeyInput) []); simpl in Hin; destruct Hin.
    + unfold saveApiKeys in Hin.
      destruct (JS.eqb (JS.trim apiKeyInput) []);
        destruct (JS.eqb (JS.trim pexelsApiKeyInput) []);
        destruct healthStored; destruct pexelsStored; simpl in Hin; destruct Hin.
  - intros Hin. destruct a; simpl step in Hin;
      try (simpl in Hin; now intuition discriminate).
    + destruct (JS.eqb (JS.trim (inputText s)) []) eqn:Eb.
      * rewrite (addItem_effects_blank now s Eb) in Hin. destruct Hin.
      * rewrite (addItem_effects now s Eb) in Hin.
        destruct (configured (apiKey s)) as [k|] eqn:Ek;
          destruct (configured (pexelsApiKey s)) as [k'|] eqn:Ek';
          simpl in Hin; try (now intuition discriminate).
        -- destruct Hin as [H|[H|[H|[]]]]; try discriminate H.
           injection H as <- <- <-.
           split; [reflexivity|]. split; [now apply (Hkey _ _ Ek')|].
           split; [now apply JS_eqb_neq|]. left. eauto.
        -- destruct Hin as [H|[H|[]]]; try discriminate H.
           injection H as <- <- <-.
           split; [reflexivity|]. split; [now apply (Hkey _ _ Ek')|].
           split; [now apply JS_eqb_neq|]. left. eauto.
    + unfold confirmDelete in Hin.
      destruct (pendingDelete s) as [[i c]|]; simpl in Hin; destruct Hin.
    + unfold saveEdit in Hin. destruct (JS.eqb (JS.trim (editText s)) []);
        simpl in Hin; now intuition discriminate.
    + rewrite replaceFoodItem_effects_gen in Hin.
      destruct (find _ (items s)) as [found|] eqn:Ef; [|destruct Hin].
      destruct (healthSuggestion found) as [newName|] eqn:Eh; [|destruct Hin].
      destruct (JS.truthy newName) eqn:Et; [|destruct Hin].
      destruct (configured (pexelsApiKey s)) as [k'|] eqn:Ek'; [|destruct Hin].
      destruct Hin as [H|[]]. injection H as <- <- <-.
      split; [reflexivity|]. split; [now apply (Hkey _ _ Ek')|].
      split; [now apply truthy_not_nil|]. right. split; [reflexivity|].
      apply find_some in Ef as [Hin Hid]. apply JS_eqb_eq in Hid.
      exists found. auto.
    + destruct r as [|[text|]]; simpl in Hin; try (now intuition discriminate).
      destruct (JS.truthy text); [|destruct Hin].
      destruct (parseSuggestion text). simpl in Hin. destruct Hin.
    + unfold getApiKeys_loaded in Hin. rewrite !andThen_snd in Hin.
      destruct (negb (truthyStr storedApiKey) || negb (truthyStr storedPexelsKey));
        destruct (configured storedPexelsKey); destruct (configured storedApiKey);
        simpl in Hin; destruct Hin.
    + unfold saveApiKeys in Hin.
      destruct (JS.eqb (JS.trim apiKeyInput) []);
        destruct (JS.eqb (JS.trim pexelsApiKeyInput) []); simpl in Hin; destruct Hin.
    + unfold saveApiKeys in Hin.
      destruct (JS.eqb (JS.trim apiKeyInput) []);
        destruct (JS.eqb (JS.trim pexelsApiKeyInput) []);
        destruct healthStored; destruct pexelsStored; simpl in Hin; destruct Hin.
  - intros r. destruct r as [|[text|]]; try reflexivity. simpl.
    destruct (JS.truthy text); [|reflexivity]. now destruct (parseSuggestion text).
  - intros r. reflexivity.
Qed.

Lemma requests_carry_key_witness :
  let s := run (keysStored ++ [OnChangeInputText (JS.lit " Peanut butter ")])
               initialState in
  In (FetchSuggestion (JS.lit "1000") (JS.lit "Peanut butter") (JS.lit "sk-or"))
     (snd (step (AddItem 1000) s)) /\
  In (FetchImage (JS.lit "1000") (JS.lit "Almond butter") (JS.lit "px"))
     (snd (step (ReplaceFoodItem (JS.lit "1000")) almondButterShown)) /\
  configured (apiKey s) = Some (JS.lit "sk-or") /\
  configured (pexelsApiKey almondButterShown) = Some (JS.lit "px").
Proof.
  intros s.
  assert (H1 : In (FetchSuggestion (JS.lit "1000") (JS.lit "Peanut butter")
                     (JS.lit "sk-or")) (snd (step (AddItem 1000) s)))
    by (vm_compute; right; left; reflexivity).
  assert (H2 : In (FetchImage (JS.lit "1000") (JS.lit "Almond butter") (JS.lit "px"))
                  (snd (step (ReplaceFoodItem (JS.lit "1000")) almondButterShown)))
    by (vm_compute; left; reflexivity).
  split; [exact H1|]. split; [exact H2|]. split.
  - destruct (requests_carry_key (AddItem 1000) s (JS.lit "1000")
                (JS.lit "Peanut butter") (JS.lit "sk-or")) as (Hs & _).
    now destruct (Hs H1) as (_ & _ & _ & Hk & _).
  - destruct (requests_carry_key (ReplaceFoodItem (JS.lit "1000")) almondButterShown
                (JS.lit "1000") (JS.lit "Almond butter") (JS.lit "px")) as (_ & Hi & _).
    now destruct (Hi H2) as (Hk & _).
Defined.

(** * Deleting *)

Lemma filter_absent itemId (l : list GroceryItem) :
  ~ In itemId (List.map id l) ->
  filter (fun item => negb (JS.eqb (id item) itemId)) l = l.
Proof.
  induction l as [|item l IH]; simpl; intros H; [reflexivity|].
  destruct (JS.eqb (id item) itemId) eqn:E.
  - apply JS_eqb_eq in E. exfalso. apply H. now left.
  - simpl. f_equal. apply IH. intros Hin. apply H. now right.
Qed.

(** Deleting.  [deleteItem] changes no item and only asks for
    confirmation.  Confirming at once removes exactly the items with the
    id and keeps the others in their order; cancelling keeps the
    collection; deleting an id that no item carries changes nothing; and
    pressing a button with no dialog open does nothing. *)
Theorem delete_removes_the_item (s : AppState) (itemId : str) :
  items (fst (deleteItem itemId s)) = items s /\
  snd (deleteItem itemId s) = [AlertConfirmDelete itemId] /\
  items (run [DeleteItem itemId; ConfirmDelete] s)
    = filter (fun item => negb (JS.eqb (id item) itemId)) (items s) /\
  ids (run [DeleteItem itemId; ConfirmDelete] s)
    = filter (fun i => negb (JS.eqb i itemId)) (ids s) /\
  ~ In itemId (ids (run [DeleteItem itemId; ConfirmDelete] s)) /\
  items (run [DeleteItem itemId; CancelDelete] s) = items s /\
  (~ In itemId (ids s) -> items (run [DeleteItem itemId; ConfirmDelete] s) = items s) /\
  (pendingDelete s = None -> step ConfirmDelete s = (s, [])).
Proof.
  assert (E : items (run [DeleteItem itemId; ConfirmDelete] s)
              = filter (fun item => negb (JS.eqb (id item) itemId)) (items s))
    by reflexivity.
  split; [reflexivity|]. split; [reflexivity|]. split; [exact E|].
  split; [|split; [|split; [reflexivity|split]]].
  - unfold ids. rewrite E.
    apply (map_id_filter (fun i => negb (JS.eqb i itemId))).
  - unfold ids. rewrite E. intros H. apply in_map_iff in H as (item & Ei & Hin).
    apply filter_In in Hin as [_ Hne]. rewrite <- Ei, JS_eqb_refl in Hne.
    discriminate.
  - intros H. rewrite E. now apply filter_absent.
  - intros H. simpl. unfold confirmDelete. now rewrite H.
Qed.

Lemma delete_removes_the_item_witness :
  let s := run twoAddsOneReading initialState in
  ~ In (JS.lit "7") (ids s) /\
  pendingDelete s = None /\
  items (run [DeleteItem (JS.lit "7"); ConfirmDelete] s) = items s /\
  step ConfirmDelete s = (s, []).
Proof.
  intros s.
  assert (H1 : ~ In (JS.lit "7") (ids s))
    by (vm_compute; intuition discriminate).
  destruct (delete_removes_the_item s (JS.lit "7")) as (_ & _ & _ & _ & _ & _ & Ha & Hn).
  split; [exact H1|]. split; [reflexivity|].
  split; [exact (Ha H1)|exact (Hn eq_refl)].
Defined.

(** The Delete button writes back the collection its dialog was opened
    with, without the item: whatever an action did to the collection while
    the dialog was open (a response that arrived, say) is lost. *)
Theorem delete_overwrites_with_the_captured_items
  (s : AppState) (itemId : str) (a : Action) :
  besideDialog a = true ->
  items (run [DeleteItem itemId; a; ConfirmDelete] s)
  = filter (fun item => negb (JS.eqb (id item) itemId)) (items s).
Proof.
  intros Ha.
  change (run [DeleteItem itemId; a; ConfirmDelete] s)
    with (fst (step ConfirmDelete
                 (fst (step a (fst (step (DeleteItem itemId) s)))))).
  rewrite step_items, step_pendingDelete.
  destruct a; try discriminate Ha; reflexivity.
Qed.

Lemma delete_overwrites_with_the_captured_items_witness :
  let arrived :=
    SuggestionCompleted (JS.lit "1000") (SuggestionOk (Some almondButterText)) in
  let s := run (keysStored ++ addPeanutButter ++
                [OnChangeInputText (JS.lit "Jam"); AddItem 2000]) initialState in
  List.map healthSuggestion (items (run [arrived] s))
    = [Some (JS.lit "Almond butter"); None] /\
  List.map healthSuggestion
    (items (run [DeleteItem (JS.lit "2000"); arrived; ConfirmDelete] s)) = [None].
Proof.
  intros arrived s. split; [vm_compute; reflexivity|].
  rewrite (delete_overwrites_with_the_captured_items s (JS.lit "2000") arrived eq_refl).
  vm_compute. reflexivity.
Defined.

(** * Editing a name *)

Lemma patch_map {A} (obs : GroceryItem -> A) itemId f l :
  List.map obs (patch itemId f l)
  = List.map (fun item => if JS.eqb (id item) itemId then obs (f item) else obs item) l.
Proof.
  unfold patch. rewrite map_map. apply map_ext. intros item.
  now destruct (JS.eqb (id item) itemId).
Qed.

(** Saving an edit.  A blank edit text is refused: nothing changes and the
    row stays open.  Otherwise the items with the id get the trimmed text
    as name and leave edit mode, the edit box is emptied and the keyboard
    dismissed; no other item and no enrichment field changes, so a
    suggestion or picture fetched for the old name stays on the item. *)
Theorem saveEdit_renames (s : AppState) (itemId : str) :
  (JS.trim (editText s) = [] -> saveEdit itemId s = (s, [])) /\
  (JS.trim (editText s) <> [] ->
   let s' := fst (saveEdit itemId s) in
   snd (saveEdit itemId s) = [KeyboardDismiss] /\
   editText s' = [] /\
   List.map offNameEditing (items s') = List.map offNameEditing (items s) /\
   List.map name (items s')
     = List.map (fun item => if JS.eqb (id item) itemId
                             then JS.trim (editText s) else name item) (items s) /\
   List.map isEditing (items s')
     = List.map (fun item => if JS.eqb (id item) itemId
                             then false else isEditing item) (items s)).
Proof.
  split; intros H.
  - unfold saveEdit. now rewrite H.
  - apply JS_eqb_neq in H. intros s'. subst s'.
    assert (Ei : items (fst (saveEdit itemId s))
                 = patch itemId (renamed (JS.trim (editText s))) (items s)).
    { rewrite saveEdit_items. now rewrite H. }
    rewrite Ei. unfold saveEdit. rewrite H.
    split; [reflexivity|]. split; [reflexivity|].
    split; [now apply patch_frame|]. split; rewrite patch_map; reflexivity.
Qed.

Lemma saveEdit_renames_witness :
  let blank := fst (setEditText (JS.lit "  ") peanutButterPending) in
  let typed := fst (setEditText (JS.lit " Jam ") peanutButterPending) in
  saveEdit (JS.lit "1000") blank = (blank, []) /\
  List.map name (items (fst (saveEdit (JS.lit "1000") typed))) = [JS.lit "Jam"].
Proof.
  intros blank typed.
  split.
  - apply (proj1 (saveEdit_renames blank (JS.lit "1000"))). reflexivity.
  - assert (H : JS.trim (editText typed) <> []) by (vm_compute; discriminate).
    destruct (proj2 (saveEdit_renames typed (JS.lit "1000")) H) as (_ & _ & _ & Hn & _).
    rewrite Hn. vm_compute. reflexivity.
Defined.

Lemma fold_name_absent itemId (l : list GroceryItem) (t : str) :
  ~ In itemId (List.map id l) ->
  fold_left (fun t item => if JS.eqb (id item) itemId then name item else t) l t = t.
Proof.
  revert t. induction l as [|x l IH]; simpl; intros t H; [reflexivity|].
  destruct (JS.eqb (id x) itemId) eqn:E.
  - apply JS_eqb_eq in E. exfalso. apply H. now left.
  - apply IH. intros Hin. apply H. now right.
Qed.

(** With pairwise distinct ids, the item with a given id is unique. *)
Lemma unique_by_id (l : list GroceryItem) (x y : GroceryItem) :
  NoDup (List.map id l) -> In x l -> In y l -> id x = id y -> x = y.
Proof.
  induction l as [|z l IH]; simpl; intros Hnd Hx Hy E; [contradiction|].
  inversion Hnd as [|? ? Hnew Hrest]; subst.
  destruct Hx as [->|Hx], Hy as [->|Hy]; auto.
  - exfalso. apply Hnew. rewrite E. now apply in_map.
  - exfalso. apply Hnew. rewrite <- E. now apply in_map.
Qed.

Lemma fold_name_present itemId (l : list GroceryItem) (t : str) (x : GroceryItem) :
  NoDup (List.map id l) -> In x l -> id x = itemId ->
  fold_left (fun t item => if JS.eqb (id item) itemId then name item else t) l t
  = name x.
Proof.
  revert t. induction l as [|z l IH]; simpl; intros t Hnd Hx E; [contradiction|].
  inversion Hnd as [|? ? Hnew Hrest]; subst.
  destruct Hx as [->|Hx].
  - rewrite JS_eqb_refl. now apply fold_name_absent.
  - apply IH; auto.
Qed.

Lemma startEditing_editText itemId s :
  editText (fst (startEditing itemId s))
  = fold_left (fun t item => if JS.eqb (id item) itemId then name item else t)
      (items s) (editText s).
Proof. unfold startEditing. rewrite andThen_fst. reflexivity. Qed.

(** Starting to edit.  With pairwise distinct ids, [startEditing] puts
    the name of the item with the id into the edit box; when no item has
    the id it leaves the edit box alone and ends every edit, since it sets
    [isEditing] to false on all the other items. *)
Theorem startEditing_loads_the_name (s : AppState) (itemId : str) :
  (forall item, NoDup (ids s) -> In item (items s) -> id item = itemId ->
     editText (fst (startEditing itemId s)) = name item /\
     editingCount (fst (startEditing itemId s)) = 1) /\
  (~ In itemId (ids s) ->
     editText (fst (startEditing itemId s)) = editText s /\
     items (fst (startEditing itemId s)) = List.map (withEditing false) (items s) /\
     editingCount (fst (startEditing itemId s)) = 0).
Proof.
  split.
  - intros item Hnd Hin E. split.
    + rewrite startEditing_editText. now apply fold_name_present.
    + rewrite startEditing_count. apply count_present; [exact Hnd|].
      rewrite <- E. unfold ids. now apply in_map.
  - intros H. split; [|split].
    + rewrite startEditing_editText. now apply fold_name_absent.
    + rewrite startEditing_items. apply map_ext_in. intros item Hin.
      destruct (JS.eqb (id item) itemId) eqn:E; [|reflexivity].
      apply JS_eqb_eq in E. exfalso. apply H. rewrite <- E. unfold ids.
      now apply in_map.
    + rewrite startEditing_count, count_absent; [reflexivity|exact H].
Qed.

Lemma startEditing_loads_the_name_witness :
  let s := peanutButterPending in
  let item := hd (newItem [] []) (items s) in
  NoDup (ids s) /\ In item (items s) /\ ~ In (JS.lit "7") (ids s) /\
  editText (fst (startEditing (JS.lit "1000") s)) = JS.lit "Peanut butter" /\
  editingCount (fst (startEditing (JS.lit "7") s)) = 0.
Proof.
  intros s item.
  assert (H1 : NoDup (ids s)).
  { vm_compute. repeat constructor. intros []. }
  assert (H2 : In item (items s)) by (left; reflexivity).
  assert (H3 : ~ In (JS.lit "7") (ids s)) by (vm_compute; intuition discriminate).
  destruct (startEditing_loads_the_name s (JS.lit "1000")) as [Hp _].
  destruct (startEditing_loads_the_name s (JS.lit "7")) as [_ Ha].
  split; [exact H1|]. split; [exact H2|]. split; [exact H3|]. split.
  - exact (proj1 (Hp item H1 H2 eq_refl)).
  - exact (proj2 (proj2 (Ha H3))).
Defined.

(** Opening an item for editing and saving at once gives back the
    collection, no item in edit mode: after a run with pairwise distinct
    ids, [startEditing] followed by [saveEdit] for the same id changes no
    name and no other field. *)
Theorem edit_and_save_unchanged (acts : list Action) (itemId : str) :
  let s := run acts initialState in
  NoDup (ids s) ->
  items (run [StartEditing itemId; SaveEdit itemId] s)
  = List.map (withEditing false) (items s).
Proof.
  intros s Hnd.
  change (run [StartEditing itemId; SaveEdit itemId] s)
    with (fst (saveEdit itemId (fst (startEditing itemId s)))).
  rewrite saveEdit_items, startEditing_items, startEditing_editText.
  destruct (in_dec (list_eq_dec N.eq_dec) itemId (ids s)) as [Hin|Hout].
  - unfold ids in Hin. apply in_map_iff in Hin as (x & Ex & Hx).
    rewrite (fold_name_present itemId (items s) (editText s) x Hnd Hx Ex).
    destruct (textsAreTight_run acts) as [Ht _]. fold s in Ht.
    assert (Hxt : tight (name x)).
    { pose proof (proj1 (Forall_forall _ _) Ht x Hx) as Hp. exact (proj1 Hp). }
    rewrite (tight_trim _ Hxt).
    assert (Hne : JS.eqb (name x) [] = false).
    { apply JS_eqb_neq. intros E. rewrite E in Hxt. now destruct Hxt. }
    rewrite Hne. unfold patch. rewrite map_map. apply map_ext_in.
    intros item Hitem. destruct (JS.eqb (id item) itemId) eqn:E; simpl; rewrite E.
    + apply JS_eqb_eq in E.
      assert (item = x)
        by (apply (unique_by_id (items s));
            [exact Hnd|exact Hitem|exact Hx|congruence]).
      subst item. reflexivity.
    + reflexivity.
  - assert (Hall : List.map (fun item => withEditing (JS.eqb (id item) itemId) item)
                     (items s) = List.map (withEditing false) (items s)).
    { apply map_ext_in. intros item Hitem.
      destruct (JS.eqb (id item) itemId) eqn:E; [|reflexivity].
      apply JS_eqb_eq in E. exfalso. apply Hout. rewrite <- E. unfold ids.
      now apply in_map. }
    rewrite Hall.
    destruct (JS.eqb (JS.trim _) []); [reflexivity|].
    apply patch_absent. rewrite map_map. exact Hout.
Qed.

Lemma edit_and_save_unchanged_witness :
  let acts := keysStored ++ addPeanutButter in
  NoDup (ids (run acts initialState)) /\
  items (run [StartEditing (JS.lit "1000"); SaveEdit (JS.lit "1000")]
             (run acts initialState))
  = List.map (withEditing false) (items (run acts initialState)).
Proof.
  intros acts.
  assert (H : NoDup (ids (run acts initialState))).
  { vm_compute. repeat constructor. intros []. }
  split; [exact H|]. exact (edit_and_save_unchanged acts (JS.lit "1000") H).
Defined.

(** * Saving the keys *)

(** Saving the key dialog.  [healthStored] and [pexelsStored] tell whether
    the storage write of each key succeeds.  With both fields blank only
    the error text is set.  Otherwise a field that is not blank is written
    to storage and then replaces its key with the text as typed (not
    trimmed), the suggestion key first; a write that fails stops the
    handler, sets the error text and leaves the dialog as it is, keeping
    what was stored before the failure.  With no failure the error is
    cleared and the dialog closes.  The collection is untouched and no
    request is sent. *)
Theorem saveApiKeys_stores (s : AppState) (apiKeyInput pexelsApiKeyInput : str)
    (healthStored pexelsStored : bool) :
  let after := saveApiKeys apiKeyInput pexelsApiKeyInput healthStored pexelsStored s in
  let s' := fst after in
  let healthBlank := JS.eqb (JS.trim apiKeyInput) [] in
  let pexelsBlank := JS.eqb (JS.trim pexelsApiKeyInput) [] in
  let healthFails := negb healthBlank && negb healthStored in
  let pexelsFails := negb healthFails && negb pexelsBlank && negb pexelsStored in
  snd after = [] /\
  items s' = items s /\
  apiKey s' = (if healthBlank || healthFails then apiKey s else Some apiKeyInput) /\
  pexelsApiKey s' = (if pexelsBlank || healthFails || pexelsFails then pexelsApiKey s
                     else Some pexelsApiKeyInput) /\
  apiKeyError s' = (if healthBlank && pexelsBlank
                    then Some (JS.lit "Please enter at least one API key")
                    else if healthFails || pexelsFails
                         then Some (JS.lit "Failed to save API keys")
                         else None) /\
  isApiKeyModalVisible s' = (if healthBlank && pexelsBlank || healthFails || pexelsFails
                             then isApiKeyModalVisible s else false).
Proof.
  unfold saveApiKeys.
  destruct (JS.eqb (JS.trim apiKeyInput) []);
    destruct (JS.eqb (JS.trim pexelsApiKeyInput) []);
    destruct healthStored; destruct pexelsStored; simpl; auto 6.
Qed.

(** * Dismissing a suggestion *)

Lemma find_patch itemId otherId f l :
  (forall item, id (f item) = id item) ->
  find (fun i => JS.eqb (id i) itemId) (patch otherId f l)
  = option_map (fun item => if JS.eqb (id item) otherId then f item else item)
      (find (fun i => JS.eqb (id i) itemId) l).
Proof.
  intros Hf. induction l as [|x l IH]; [reflexivity|]. simpl.
  assert (E : id (if JS.eqb (id x) otherId then f x else x) = id x)
    by (destruct (JS.eqb (id x) otherId); auto).
  rewrite E. destruct (JS.eqb (id x) itemId); [reflexivity|exact IH].
Qed.

(** Dismissing hides and does not delete.  [dismissSuggestion] sets
    [showingSuggestion] to false on the items with the id and changes
    nothing else: the suggestion and its reason stay stored.  Accepting
    afterwards still works: it gives the same names and the same request
    as accepting without the dismissal. *)
Theorem dismissSuggestion_hides (s : AppState) (itemId : str) :
  let s' := fst (dismissSuggestion itemId s) in
  snd (dismissSuggestion itemId s) = [] /\
  List.map offShowing (items s') = List.map offShowing (items s) /\
  List.map showingSuggestion (items s')
    = List.map (fun item => if JS.eqb (id item) itemId
                            then Some false else showingSuggestion item) (items s) /\
  snd (replaceFoodItem itemId s') = snd (replaceFoodItem itemId s) /\
  List.map name (items (fst (replaceFoodItem itemId s')))
    = List.map name (items (fst (replaceFoodItem itemId s))).
Proof.
  intros s'. subst s'.
  assert (Ei : items (fst (dismissSuggestion itemId s))
               = patch itemId dismissed (items s)) by reflexivity.
  assert (Ek : pexelsApiKey (fst (dismissSuggestion itemId s)) = pexelsApiKey s)
    by reflexivity.
  assert (Ef : find (fun i => JS.eqb (id i) itemId)
                 (items (fst (dismissSuggestion itemId s)))
               = option_map (fun item => if JS.eqb (id item) itemId
                                         then dismissed item else item)
                   (find (fun i => JS.eqb (id i) itemId) (items s))).
  { rewrite Ei. now apply find_patch. }
  split; [reflexivity|]. split; [rewrite Ei; now apply patch_frame|].
  split; [rewrite Ei, patch_map; reflexivity|]. split.
  - rewrite !replaceFoodItem_effects_gen, Ef, Ek.
    destruct (find _ (items s)) as [found|]; [|reflexivity]. simpl.
    now destruct (JS.eqb (id found) itemId).
  - rewrite !replaceFoodItem_items, Ef, Ek, Ei.
    destruct (find _ (items s)) as [found|]; simpl;
      [|now apply patch_frame].
    assert (Eh : healthSuggestion (if JS.eqb (id found) itemId
                                   then dismissed found else found)
                 = healthSuggestion found)
      by (now destruct (JS.eqb (id found) itemId)).
    rewrite Eh.
    destruct (healthSuggestion found) as [newName|]; [|now apply patch_frame].
    destruct (JS.truthy newName); [|now apply patch_frame].
    assert (En : List.map name
                   (List.map (fun i => if JS.eqb (id i) itemId
                                            && truthyStr (healthSuggestion i)
                                       then replaced newName i else i)
                      (patch itemId dismissed (items s)))
                 = List.map name
                     (List.map (fun i => if JS.eqb (id i) itemId
                                              && truthyStr (healthSuggestion i)
                                         then replaced newName i else i) (items s))).
    { unfold patch. rewrite !map_map. apply map_ext. intros i.
      destruct (JS.eqb (id i) itemId) eqn:E; simpl; rewrite ?E; simpl;
        [|reflexivity].
      now destruct (truthyStr (healthSuggestion i)). }
    destruct (configured (pexelsApiKey s));
      [rewrite !(patch_frame name itemId markLoadingImage) by reflexivity|];
      exact En.
Qed.

(** * Responses *)

(** A response that brings nothing keeps what is there.  A failed
    suggestion request raises one alert and only sets
    [isLoadingSuggestion] to false: an earlier suggestion stays.  An image
    request that fails, or succeeds without a picture, raises nothing and
    only sets [isLoadingImage] to false: an earlier picture stays. *)
Theorem failed_response_keeps_the_result (s : AppState) (itemId : str) :
  snd (getHealthSuggestion_completed itemId SuggestionFailed s)
    = [AlertSuggestionFailed] /\
  List.map offLoadingSuggestion
    (items (fst (getHealthSuggestion_completed itemId SuggestionFailed s)))
    = List.map offLoadingSuggestion (items s) /\
  List.map isLoadingSuggestion
    (items (fst (getHealthSuggestion_completed itemId SuggestionFailed s)))
    = List.map (fun item => if JS.eqb (id item) itemId
                            then Some false else isLoadingSuggestion item) (items s) /\
  (forall r, r = ImageFailed \/ r = ImageOk None \/ r = ImageOk (Some []) ->
     snd (getItemImage_completed itemId r s) = [] /\
     List.map offLoadingImage (items (fst (getItemImage_completed itemId r s)))
       = List.map offLoadingImage (items s) /\
     List.map isLoadingImage (items (fst (getItemImage_completed itemId r s)))
       = List.map (fun item => if JS.eqb (id item) itemId
                               then Some false else isLoadingImage item) (items s)).
Proof.
  split; [reflexivity|].
  split; [change (items (fst (getHealthSuggestion_completed itemId SuggestionFailed s)))
            with (patch itemId suggestionNotLoaded (items s));
          now apply patch_frame|].
  split; [change (items (fst (getHealthSuggestion_completed itemId SuggestionFailed s)))
            with (patch itemId suggestionNotLoaded (items s));
          rewrite patch_map; reflexivity|].
  intros r Hr. rewrite image_completed_items.
  assert (E : imageUpdate r = imageNotLoaded)
    by (destruct Hr as [->|[->| ->]]; reflexivity).
  rewrite E. split; [reflexivity|].
  split; [now apply patch_frame|rewrite patch_map; reflexivity].
Qed.

Lemma failed_response_keeps_the_result_witness :
  List.map imageUrl
    (items (fst (getItemImage_completed (JS.lit "1000") ImageFailed
                   (fst (getItemImage_completed (JS.lit "1000")
                           (ImageOk (Some (JS.lit "https://p/1.jpg")))
                           peanutButterPending)))))
  = [Some (JS.lit "https://p/1.jpg")].
Proof.
  destruct (failed_response_keeps_the_result
              (fst (getItemImage_completed (JS.lit "1000")
                      (ImageOk (Some (JS.lit "https://p/1.jpg"))) peanutButterPending))
              (JS.lit "1000")) as (_ & _ & _ & Hi).
  destruct (Hi ImageFailed (or_introl eq_refl)) as (_ & Hoff & _).
  apply (f_equal (List.map snd)) in Hoff. rewrite !map_map in Hoff.
  etransitivity; [exact Hoff|]. vm_compute. reflexivity.
Defined.

Lemma patch_comm itemId otherId f g l :
  (forall item, id (f item) = id item) ->
  (forall item, id (g item) = id item) ->
  (forall item, f (g item) = g (f item)) ->
  patch itemId f (patch otherId g l) = patch otherId g (patch itemId f l).
Proof.
  intros Hf Hg Hfg. unfold patch. rewrite !map_map. apply map_ext. intros item.
  destruct (JS.eqb (id item) itemId) eqn:E1;
    destruct (JS.eqb (id item) otherId) eqn:E2;
    rewrite ?Hf, ?Hg, ?E1, ?E2; auto.
Qed.

(** The last response wins.  A successful suggestion response with text
    replaces whatever an earlier response for the same id left, and so
    does a successful image response with a picture: the state is the one
    the later response alone would give. *)
Theorem last_response_wins (s : AppState) (itemId : str) :
  (forall r text, JS.truthy text = true ->
     fst (getHealthSuggestion_completed itemId (SuggestionOk (Some text))
            (fst (getHealthSuggestion_completed itemId r s)))
     = fst (getHealthSuggestion_completed itemId (SuggestionOk (Some text)) s)) /\
  (forall r url, JS.truthy url = true ->
     fst (getItemImage_completed itemId (ImageOk (Some url))
            (fst (getItemImage_completed itemId r s)))
     = fst (getItemImage_completed itemId (ImageOk (Some url)) s)).
Proof.
  split.
  - intros r text Ht.
    pose proof (suggestion_completed_rest itemId r s)
      as (R1 & R2 & R3 & R4 & R5 & R6 & R7).
    pose proof (suggestion_completed_rest itemId (SuggestionOk (Some text)) s)
      as (P1 & P2 & P3 & P4 & P5 & P6 & P7).
    pose proof (suggestion_completed_rest itemId (SuggestionOk (Some text))
                  (fst (getHealthSuggestion_completed itemId r s)))
      as (Q1 & Q2 & Q3 & Q4 & Q5 & Q6 & Q7).
    apply state_ext; try congruence.
    rewrite !suggestion_completed_items. simpl. rewrite Ht.
    destruct (suggestionUpdate r) as [f|] eqn:Hf; [|reflexivity].
    rewrite patch_patch by (intros; eapply suggestionUpdate_id; eassumption).
    apply patch_ext. intros item.
    pose proof (suggestionUpdate_off r f item Hf) as Hoff.
    unfold offSuggestionAxis, imageAxis in Hoff. injection Hoff as E1 E2 E3 E4 E5.
    unfold suggestionLoaded. now rewrite E1, E2, E3, E4, E5.
  - intros r url Ht. unfold getItemImage_completed.
    apply state_ext; try reflexivity. simpl. rewrite Ht.
    rewrite patch_patch by apply imageUpdate_id.
    apply patch_ext. intros item.
    pose proof (imageUpdate_off r item) as Hoff.
    unfold offImageAxis, suggestionAxis in Hoff.
    injection Hoff as E1 E2 E3 E4 E5 E6 E7.
    unfold imageLoaded. now rewrite E1, E2, E3, E4, E5, E6, E7.
Qed.

Lemma last_response_wins_witness :
  fst (getHealthSuggestion_completed (JS.lit "1000")
         (SuggestionOk (Some almondButterText))
         (fst (getHealthSuggestion_completed (JS.lit "1000") SuggestionFailed
                 peanutButterPending)))
  = almondButterShown /\
  List.map imageUrl
    (items (fst (getItemImage_completed (JS.lit "1000")
                   (ImageOk (Some (JS.lit "https://p/2.jpg")))
                   (fst (getItemImage_completed (JS.lit "1000")
                           (ImageOk (Some (JS.lit "https://p/1.jpg")))
                           peanutButterPending)))))
  = [Some (JS.lit "https://p/2.jpg")].
Proof.
  destruct (last_response_wins peanutButterPending (JS.lit "1000")) as [Hs Hi].
  split.
  - rewrite (Hs SuggestionFailed almondButterText eq_refl). reflexivity.
  - rewrite (Hi (ImageOk (Some (JS.lit "https://p/1.jpg")))
               (JS.lit "https://p/2.jpg") eq_refl).
    reflexivity.
Defined.

(** A response is matched by id alone.  Renaming an item and receiving a
    response for it commute: a suggestion or a picture requested for the
    old name is applied to the renamed item just the same. *)
Theorem response_survives_rename (s : AppState) (itemId editedId : str) :
  (forall r,
     fst (getHealthSuggestion_completed itemId r (fst (saveEdit editedId s)))
     = fst (saveEdit editedId (fst (getHealthSuggestion_completed itemId r s)))) /\
  (forall r,
     fst (getItemImage_completed itemId r (fst (saveEdit editedId s)))
     = fst (saveEdit editedId (fst (getItemImage_completed itemId r s)))).
Proof.
  split; intros r.
  - pose proof (suggestion_completed_rest itemId r s)
      as (R1 & R2 & R3 & R4 & R5 & R6 & R7).
    pose proof (suggestion_completed_rest itemId r (fst (saveEdit editedId s)))
      as (Q1 & Q2 & Q3 & Q4 & Q5 & Q6 & Q7).
    unfold saveEdit in *. rewrite R2.
    destruct (JS.eqb (JS.trim (editText s)) []) eqn:Eb; [reflexivity|].
    apply state_ext; simpl in *; try congruence.
    rewrite !suggestion_completed_items. simpl.
    destruct (suggestionUpdate r) as [f|] eqn:Hf; [|reflexivity].
    apply patch_comm; try reflexivity.
    + intros item. eapply suggestionUpdate_id; eassumption.
    + intros item. destruct r as [|[text|]]; simpl in Hf; try discriminate.
      * now injection Hf as <-.
      * destruct (JS.truthy text); [|discriminate]. now injection Hf as <-.
  - unfold saveEdit, getItemImage_completed. simpl.
    destruct (JS.eqb (JS.trim (editText s)) []) eqn:Eb; [reflexivity|].
    apply state_ext; try reflexivity. simpl.
    apply patch_comm; try reflexivity.
    + apply imageUpdate_id.
    + intros item. destruct r as [|[url|]]; simpl; try reflexivity.
      now destruct (JS.truthy url).
Qed.

(** * Accepting twice *)




(** * The order of the collection *)

(** The collection is kept in the order of insertion.  [addItem] appends
    at most one id at the end, the Delete button leaves a subsequence of
    the ids its dialog was opened with, and every other action keeps the
    sequence of ids as it is: nothing reorders, duplicates or drops an
    item. *)
Theorem only_add_and_delete_change_ids (a : Action) (s : AppState) :
  ids (fst (step a s)) =
  match a with
  | AddItem now =>
      if JS.eqb (JS.trim (inputText s)) [] then ids s
      else ids s ++ [JS.toString now]
  | ConfirmDelete =>
      match pendingDelete s with
      | Some (itemId, capturedItems) =>
          filter (fun i => negb (JS.eqb i itemId)) (List.map id capturedItems)
      | None => ids s
      end
  | _ => ids s
  end.
Proof.
  rewrite ids_step. destruct a; try reflexivity.
  unfold snapshotIds, snapshot.
  now destruct (pendingDelete s) as [[itemId capturedItems]|].
Qed.

(** * The row of an item *)





(** * The component before pictures *)

(** Without an image key the component adds an item exactly as the
    version before pictures did: same state, same effects. *)
Theorem addItem_without_image_key (now : Z) (s : AppState) :
  configured (pexelsApiKey s) = None -> addItem now s = Legacy.addItem now s.
Proof.
  intros Hk. unfold addItem, Legacy.addItem.
  destruct (JS.eqb (JS.trim (inputText s)) []); [reflexivity|].
  unfold andThen. simpl.
  unfold getHealthSuggestion. simpl.
  destruct (configured (apiKey s)); simpl;
    unfold getItemImage; simpl; rewrite Hk; simpl; rewrite ?app_nil_r; reflexivity.
Qed.

Lemma addItem_without_image_key_witness :
  let s := run [ApiKeysLoaded (Some (JS.lit "sk-or")) None;
                OnChangeInputText (JS.lit "Peanut butter")] initialState in
  configured (pexelsApiKey s) = None /\ addItem 1000 s = Legacy.addItem 1000 s.
Proof.
  intros s. split; [reflexivity|].
  apply (addItem_without_image_key 1000 s). reflexivity.
Defined.

(** Accepting a suggestion, then and now.  The earlier [replaceFoodItem]
    requests nothing and leaves the image fields alone.  With pairwise
    distinct ids the two versions agree on everything but the image
    fields: the same item gets the same name and loses its suggestion. *)
Theorem replaceFoodItem_agrees_with_legacy (s : AppState) (itemId : str) :
  snd (Legacy.replaceFoodItem itemId s) = [] /\
  List.map imageAxis (items (fst (Legacy.replaceFoodItem itemId s)))
    = List.map imageAxis (items s) /\
  (NoDup (ids s) ->
   List.map offImageAxis (items (fst (replaceFoodItem itemId s)))
   = List.map offImageAxis (items (fst (Legacy.replaceFoodItem itemId s)))).
Proof.
  split; [reflexivity|]. split.
  - simpl. rewrite map_map. apply map_ext. intros item.
    now destruct (JS.eqb (id item) itemId && truthyStr (healthSuggestion item)).
  - intros Hnd. rewrite replaceFoodItem_items. simpl.
    destruct (find (fun i => JS.eqb (id i) itemId) (items s)) as [found|] eqn:Ef.
    + pose proof (find_some _ _ Ef) as [Hfound Hid]. apply JS_eqb_eq in Hid.
      assert (Hown : forall i, In i (items s) -> JS.eqb (id i) itemId = true ->
                               i = found).
      { intros i Hi E. apply JS_eqb_eq in E.
        apply (unique_by_id (items s)); auto. congruence. }
      destruct (healthSuggestion found) as [newName|] eqn:Eh.
      * destruct (JS.truthy newName) eqn:Et.
        -- cbv zeta.
           assert (E : List.map offImageAxis
                         (List.map (fun i => if JS.eqb (id i) itemId
                                                  && truthyStr (healthSuggestion i)
                                             then replaced newName i else i) (items s))
                       = List.map offImageAxis
                           (List.map (fun i => if JS.eqb (id i) itemId
                                                    && truthyStr (healthSuggestion i)
                                               then Legacy.replaced i else i)
                              (items s))).
           { rewrite !map_map. apply map_ext_in. intros i Hi.
             destruct (JS.eqb (id i) itemId) eqn:E; [|reflexivity].
             rewrite (Hown i Hi E), Eh. simpl. rewrite Et.
             unfold offImageAxis, Legacy.replaced. simpl. now rewrite Eh. }
           destruct (configured (pexelsApiKey s));
             [rewrite (patch_frame offImageAxis itemId markLoadingImage) by reflexivity|];
             exact E.
        -- rewrite map_map. apply map_ext_in. intros i Hi.
           destruct (JS.eqb (id i) itemId) eqn:E; [|reflexivity].
           rewrite (Hown i Hi E), Eh. simpl. now rewrite Et.
      * rewrite map_map. apply map_ext_in. intros i Hi.
        destruct (JS.eqb (id i) itemId) eqn:E; [|reflexivity].
        now rewrite (Hown i Hi E), Eh.
    + rewrite map_map. apply map_ext_in. intros i Hi.
      pose proof (find_none _ _ Ef i Hi) as E. simpl in E. now rewrite E.
Qed.

Lemma replaceFoodItem_agrees_with_legacy_witness :
  let s := almondButterShown in
  NoDup (ids s) /\
  List.map offImageAxis (items (fst (replaceFoodItem (JS.lit "1000") s)))
  = List.map offImageAxis (items (fst (Legacy.replaceFoodItem (JS.lit "1000") s))).
Proof.
  intros s.
  assert (H : NoDup (ids s)) by (vm_compute; repeat constructor; intros []).
  split; [exact H|].
  exact (proj2 (proj2 (replaceFoodItem_agrees_with_legacy s (JS.lit "1000"))) H).
Defined.

(** The key dialog, then and now.  Saving with the picture field left
    empty stores the suggestion key as saving the single key did: after a
    successful write of a key that is not blank the two handlers give the
    same state, and in every case they agree on everything but the error
    text, which each version words in its own way.  Loading differs: the
    dialog opens when either key is missing, so with a suggestion key
    stored and no image key it opens where the earlier version stayed
    closed; with both keys stored the two agree.  When storage cannot be
    read both versions open the dialog, again with their own text. *)
Theorem keys_agree_with_legacy (s : AppState) (k : str) (healthStored pexelsStored : bool)
    (stored : option str) :
  let now := saveApiKeys k [] healthStored pexelsStored s in
  let before := Legacy.saveApiKey k healthStored s in
  (JS.trim k <> [] -> healthStored = true -> now = before) /\
  snd now = snd before /\
  fst (setApiKeyError None (fst now)) = fst (setApiKeyError None (fst before)) /\
  apiKeyError (fst now)
    = (if JS.eqb (JS.trim k) [] then Some (JS.lit "Please enter at least one API key")
       else if healthStored then None else Some (JS.lit "Failed to save API keys")) /\
  apiKeyError (fst before)
    = (if JS.eqb (JS.trim k) [] then Some (JS.lit "Please enter a valid API key")
       else if healthStored then None else Some (JS.lit "Failed to save API key")) /\
  isApiKeyModalVisible (fst (getApiKeys_loaded stored None s)) = true /\
  apiKey (fst (getApiKeys_loaded stored None s))
    = apiKey (fst (Legacy.getApiKey_loaded stored s)) /\
  (forall p, JS.truthy p = true ->
     apiKey (fst (getApiKeys_loaded stored (Some p) s))
       = apiKey (fst (Legacy.getApiKey_loaded stored s)) /\
     isApiKeyModalVisible (fst (getApiKeys_loaded stored (Some p) s))
       = isApiKeyModalVisible (fst (Legacy.getApiKey_loaded stored s)) /\
     pexelsApiKey (fst (getApiKeys_loaded stored (Some p) s)) = Some p) /\
  fst (setApiKeyError None (fst (getApiKeys_failed s)))
    = fst (setApiKeyError None (fst (Legacy.getApiKey_failed s))) /\
  apiKeyError (fst (getApiKeys_failed s)) = Some (JS.lit "Failed to retrieve API keys") /\
  apiKeyError (fst (Legacy.getApiKey_failed s))
    = Some (JS.lit "Failed to retrieve API key").
Proof.
  intros now before. subst now before.
  split; [|split; [|split; [|split; [|split; [|split; [|split; [|split]]]]]]].
  - intros Hk ->. apply JS_eqb_neq in Hk.
    unfold saveApiKeys, Legacy.saveApiKey. simpl. rewrite Hk. reflexivity.
  - unfold saveApiKeys, Legacy.saveApiKey. simpl.
    destruct (JS.eqb (JS.trim k) []); destruct healthStored; reflexivity.
  - unfold saveApiKeys, Legacy.saveApiKey. simpl.
    destruct (JS.eqb (JS.trim k) []); destruct healthStored; reflexivity.
  - unfold saveApiKeys. simpl.
    destruct (JS.eqb (JS.trim k) []); destruct healthStored; reflexivity.
  - unfold Legacy.saveApiKey.
    destruct (JS.eqb (JS.trim k) []); destruct healthStored; reflexivity.
  - unfold getApiKeys_loaded. rewrite !andThen_fst. simpl.
    rewrite orb_true_r. reflexivity.
  - unfold getApiKeys_loaded, Legacy.getApiKey_loaded. rewrite !andThen_fst. simpl.
    rewrite orb_true_r. destruct (configured stored); reflexivity.
  - intros p Hp. unfold getApiKeys_loaded, Legacy.getApiKey_loaded.
    rewrite !andThen_fst. simpl. rewrite Hp. simpl. rewrite orb_false_r.
    destruct stored as [k0|]; simpl; [|auto].
    destruct (JS.truthy k0); simpl; auto.
  - repeat split.
Qed.

Lemma keys_agree_with_legacy_witness :
  saveApiKeys (JS.lit "sk-or") [] true true initialState
  = Legacy.saveApiKey (JS.lit "sk-or") true initialState /\
  isApiKeyModalVisible
    (fst (getApiKeys_loaded (Some (JS.lit "sk-or")) (Some (JS.lit "px")) initialState))
  = isApiKeyModalVisible
      (fst (Legacy.getApiKey_loaded (Some (JS.lit "sk-or")) initialState)) /\
  isApiKeyModalVisible
    (fst (getApiKeys_loaded (Some (JS.lit "sk-or")) None initialState)) = true /\
  isApiKeyModalVisible
    (fst (Legacy.getApiKey_loaded (Some (JS.lit "sk-or")) initialState)) = false.
Proof.
  destruct (keys_agree_with_legacy initialState (JS.lit "sk-or") true true
              (Some (JS.lit "sk-or")))
    as (Hsame & _ & _ & _ & _ & Hopen & _ & Hboth & _).
  destruct (Hboth (JS.lit "px") eq_refl) as (_ & Hm & _).
  split; [apply Hsame; [vm_compute; discriminate|reflexivity]|].
  split; [exact Hm|]. split; [exact Hopen|reflexivity].
Defined.

(** * Accepting a suggestion: the pending flag and the request *)





(** * The credential guards of the enrichment *)





